(** * JerryScript extension handlers: property registration

    A shallow embedding of [jerry-ext/handler/handler-register.c].

    The scripting runtime is a collaborator of this layer: it is kept
    abstract (class [JerryRuntime]) and every call into it is recorded in a
    trace, so that the ownership discipline of the handlers (which handles
    are released, which entries of the table are read) can be stated for
    every runtime. *)

From Stdlib Require Import Arith NArith List String Bool Lia Permutation.
Import ListNotations.

Local Open Scope N_scope.

(** ** Data model *)

(** [typedef uint32_t jerry_value_t]: an opaque handle. *)
Definition jerry_value_t : Type := N.

(** Unsigned 32-bit counters ([uint32_t idx]) and their increment. *)
Definition UINT32_MODULUS : N := 2 ^ 32.

Definition uint32_incr (idx : N) : N := (idx + 1) mod UINT32_MODULUS.

(** [jerryx_property_entry]: [name] is a [const char *], [None] standing for
    the [NULL] pointer of the terminating entry. *)
Record jerryx_property_entry : Type := {
  name : option string;
  value : jerry_value_t
}.

(** Modelled from the spec: [jerryx_register_result] is declared in
    [jerryscript-ext/handler.h], which is not among the sources.  The source
    builds it positionally, [{ VALUE, IDX }], and reads its field
    [registered]; the first field is named [outcome] after the
    specification. *)
Record jerryx_register_result : Type := {
  outcome : jerry_value_t;
  registered : N
}.

(** ** The runtime interface *)

(** The value API the handlers call.  State-changing calls are transition
    functions on the runtime state; the three type tests inspect the handle
    only.  [rt_undefined] is the handle [jerry_undefined ()] returns. *)
Class JerryRuntime : Type := {
  rt_state : Type;
  rt_undefined : jerry_value_t;
  rt_string_sz : string -> rt_state -> jerry_value_t * rt_state;
  rt_object_set :
    jerry_value_t -> jerry_value_t -> jerry_value_t -> rt_state ->
    jerry_value_t * rt_state;
  rt_object_get :
    jerry_value_t -> jerry_value_t -> rt_state -> jerry_value_t * rt_state;
  rt_object_has :
    jerry_value_t -> jerry_value_t -> rt_state -> jerry_value_t * rt_state;
  rt_value_free : jerry_value_t -> rt_state -> rt_state;
  rt_value_is_boolean : jerry_value_t -> bool;
  rt_value_is_exception : jerry_value_t -> bool;
  rt_value_is_true : jerry_value_t -> bool
}.

(** ** Traces *)

(** Which expression of the source a released handle comes from. *)
Inductive origin : Type :=
| PropName                (* the handle made by [jerry_string_sz] *)
| EntryValue (idx : N)    (* [entries[idx].value] *)
| CallResult.             (* the handle a get/set/has call returned *)

Inductive event : Type :=
| EvEntry (idx : N)
    (* [entries[idx]] is read *)
| EvStringSz (s : string) (ret : jerry_value_t)
| EvObjectSet (obj key val ret : jerry_value_t)
| EvObjectGet (obj key ret : jerry_value_t)
| EvObjectHas (obj key ret : jerry_value_t)
| EvValueFree (what : origin) (v : jerry_value_t).

(** How a computation ends: with a value, with an access outside the entry
    table (undefined behaviour in C), or cut short by the step budget. *)
Inductive outcome_of (A : Type) : Type :=
| Ret (a : A)
| Fault
| OutOfFuel.

Arguments Ret {A} a.
Arguments Fault {A}.
Arguments OutOfFuel {A}.

Section Handlers.

Context {RT : JerryRuntime}.

(** A computation transforms the runtime state and emits the events of the
    calls it makes. *)
Definition M (A : Type) : Type :=
  rt_state -> outcome_of A * rt_state * list event.

Definition ret {A} (a : A) : M A := fun st => (Ret a, st, []).

Definition bind {A B} (m : M A) (k : A -> M B) : M B :=
  fun st =>
    match m st with
    | (Ret a, st1, t1) =>
        let '(o, st2, t2) := k a st1 in (o, st2, t1 ++ t2)
    | (Fault, st1, t1) => (Fault, st1, t1)
    | (OutOfFuel, st1, t1) => (OutOfFuel, st1, t1)
    end.

Definition out_of_fuel {A} : M A := fun st => (OutOfFuel, st, []).

Notation "x <- m ;; k" := (bind m (fun x => k))
  (at level 61, m at next level, right associativity).
Notation "m ;;; k" := (bind m (fun _ => k))
  (at level 61, right associativity).

(** *** Primitive steps *)

(** [entries[idx]]: the table is an array of unknown length; an index at or
    beyond its end is an invalid access. *)
Definition entry_at (entries : list jerryx_property_entry) (idx : N)
  : M jerryx_property_entry :=
  fun st =>
    match nth_error entries (N.to_nat idx) with
    | Some e => (Ret e, st, [EvEntry idx])
    | None => (Fault, st, [EvEntry idx])
    end.

Definition jerry_undefined : jerry_value_t := rt_undefined.

Definition jerry_string_sz (s : string) : M jerry_value_t :=
  fun st =>
    let '(h, st') := rt_string_sz s st in (Ret h, st', [EvStringSz s h]).

Definition jerry_object_set (obj key val : jerry_value_t) : M jerry_value_t :=
  fun st =>
    let '(r, st') := rt_object_set obj key val st in
    (Ret r, st', [EvObjectSet obj key val r]).

Definition jerry_object_get (obj key : jerry_value_t) : M jerry_value_t :=
  fun st =>
    let '(r, st') := rt_object_get obj key st in
    (Ret r, st', [EvObjectGet obj key r]).

Definition jerry_object_has (obj key : jerry_value_t) : M jerry_value_t :=
  fun st =>
    let '(r, st') := rt_object_has obj key st in
    (Ret r, st', [EvObjectHas obj key r]).

Definition jerry_value_free (what : origin) (v : jerry_value_t) : M unit :=
  fun st => (Ret tt, rt_value_free v st, [EvValueFree what v]).

Definition jerry_value_is_boolean : jerry_value_t -> bool :=
  rt_value_is_boolean.
Definition jerry_value_is_exception : jerry_value_t -> bool :=
  rt_value_is_exception.
Definition jerry_value_is_true : jerry_value_t -> bool := rt_value_is_true.

(** *** handler-register.c *)

Definition JERRYX_SET_PROPERTIES_RESULT (VALUE : jerry_value_t) (IDX : N)
  : jerryx_register_result :=
  {| outcome := VALUE; registered := IDX |}.

(** The [for] loop of [jerryx_set_properties], from index [idx] on.  The loop
    condition loads [entries[idx]]; the body works on that same element
    through [entry = &entries[idx]].  The C loop has no bound of its own
    ([idx] wraps around at 2^32): [fuel] is the number of iterations the
    model follows before it reports [OutOfFuel]. *)
Fixpoint set_properties_loop (fuel : nat) (target_object : jerry_value_t)
    (entries : list jerryx_property_entry) (idx : N)
  : M jerryx_register_result :=
  match fuel with
  | O => out_of_fuel
  | S fuel' =>
      entry <- entry_at entries idx ;;
      match name entry with
      | None => ret (JERRYX_SET_PROPERTIES_RESULT jerry_undefined idx)
      | Some entry_name =>
          prop_name <- jerry_string_sz entry_name ;;
          result <- jerry_object_set target_object prop_name (value entry) ;;
          jerry_value_free PropName prop_name ;;;
          if negb (jerry_value_is_boolean result)
          then ret (JERRYX_SET_PROPERTIES_RESULT result idx)
          else
            jerry_value_free (EntryValue idx) (value entry) ;;;
            jerry_value_free CallResult result ;;;
            set_properties_loop fuel' target_object entries (uint32_incr idx)
      end
  end.

Definition jerryx_set_properties (fuel : nat) (target_object : jerry_value_t)
    (entries : option (list jerryx_property_entry))
  : M jerryx_register_result :=
  match entries with
  | None => ret (JERRYX_SET_PROPERTIES_RESULT jerry_undefined 0)
  | Some entries => set_properties_loop fuel target_object entries 0
  end.

(** The [for] loop of [jerryx_release_property_entry]. *)
Fixpoint release_property_entry_loop (fuel : nat)
    (entries : list jerryx_property_entry) (idx : N) : M unit :=
  match fuel with
  | O => out_of_fuel
  | S fuel' =>
      entry <- entry_at entries idx ;;
      match name entry with
      | None => ret tt
      | Some _ =>
          jerry_value_free (EntryValue idx) (value entry) ;;;
          release_property_entry_loop fuel' entries (uint32_incr idx)
      end
  end.

Definition jerryx_release_property_entry (fuel : nat)
    (entries : option (list jerryx_property_entry))
    (register_result : jerryx_register_result) : M unit :=
  match entries with
  | None => ret tt
  | Some entries =>
      release_property_entry_loop fuel entries (registered register_result)
  end.

Definition jerryx_set_property_str (target_object : jerry_value_t)
    (name : string) (value : jerry_value_t) : M jerry_value_t :=
  property_name_val <- jerry_string_sz name ;;
  result_val <- jerry_object_set target_object property_name_val value ;;
  jerry_value_free PropName property_name_val ;;;
  ret result_val.

Definition jerryx_get_property_str (target_object : jerry_value_t)
    (name : string) : M jerry_value_t :=
  prop_name <- jerry_string_sz name ;;
  result_val <- jerry_object_get target_object prop_name ;;
  jerry_value_free PropName prop_name ;;;
  ret result_val.

Definition jerryx_has_property_str (target_object : jerry_value_t)
    (name : string) : M bool :=
  let has_property := false in
  prop_name <- jerry_string_sz name ;;
  has_prop_val <- jerry_object_has target_object prop_name ;;
  let has_property :=
    if negb (jerry_value_is_exception has_prop_val)
    then jerry_value_is_true has_prop_val
    else has_property in
  jerry_value_free CallResult has_prop_val ;;;
  jerry_value_free PropName prop_name ;;;
  ret has_property.

End Handlers.

(** ** Observing a run *)

Definition result_of {A S T} (run : outcome_of A * S * T) : outcome_of A :=
  fst (fst run).
Definition state_of {A S T} (run : outcome_of A * S * T) : S := snd (fst run).
Definition trace_of {A S T} (run : outcome_of A * S * T) : T := snd run.

(** Indices of the entry table that were read, in order. *)
Fixpoint entries_read (tr : list event) : list N :=
  match tr with
  | [] => []
  | EvEntry idx :: tr' => idx :: entries_read tr'
  | _ :: tr' => entries_read tr'
  end.

(** Handles the [jerry_object_set] calls returned, in order. *)
Fixpoint set_results (tr : list event) : list jerry_value_t :=
  match tr with
  | [] => []
  | EvObjectSet _ _ _ r :: tr' => r :: set_results tr'
  | _ :: tr' => set_results tr'
  end.

(** Releases of [entries[idx].value]: the index and the handle released. *)
Fixpoint entry_values_freed (tr : list event) : list (N * jerry_value_t) :=
  match tr with
  | [] => []
  | EvValueFree (EntryValue idx) v :: tr' => (idx, v) :: entry_values_freed tr'
  | _ :: tr' => entry_values_freed tr'
  end.

(** Releases of handles returned by a get/set/has call. *)
Fixpoint results_freed (tr : list event) : list jerry_value_t :=
  match tr with
  | [] => []
  | EvValueFree CallResult v :: tr' => v :: results_freed tr'
  | _ :: tr' => results_freed tr'
  end.

(** Every handle passed to [jerry_value_free], whatever its origin. *)
Fixpoint all_freed (tr : list event) : list jerry_value_t :=
  match tr with
  | [] => []
  | EvValueFree _ v :: tr' => v :: all_freed tr'
  | _ :: tr' => all_freed tr'
  end.

(** The calls into the runtime, the reads of the table left out. *)
Fixpoint runtime_calls (tr : list event) : list event :=
  match tr with
  | [] => []
  | EvEntry _ :: tr' => runtime_calls tr'
  | ev :: tr' => ev :: runtime_calls tr'
  end.

(** The life of the transient name handles along a trace.  [live] is the
    name handle made by [jerry_string_sz] and not yet released.  The check
    fails when a name handle is made while another is live, when a name
    release does not match the live handle, and when a handle is still live
    at the end: it holds exactly when every name handle made is released
    once, before the next one is made and before the trace ends. *)
Fixpoint prop_names_released_once (live : option jerry_value_t)
    (tr : list event) : bool :=
  match tr with
  | [] => match live with None => true | Some _ => false end
  | EvStringSz _ h :: tr' =>
      match live with
      | None => prop_names_released_once (Some h) tr'
      | Some _ => false
      end
  | EvValueFree PropName h :: tr' =>
      match live with
      | Some h' => N.eqb h h' && prop_names_released_once None tr'
      | None => false
      end
  | _ :: tr' => prop_names_released_once live tr'
  end.

Definition count_string_sz (tr : list event) : nat :=
  List.length
    (filter (fun ev => match ev with EvStringSz _ _ => true | _ => false end)
       tr).

Definition count_prop_name_free (tr : list event) : nat :=
  List.length
    (filter
       (fun ev => match ev with EvValueFree PropName _ => true | _ => false end)
       tr).

(** ** Entry tables *)

(** Index of the first entry whose name is [NULL]. *)
Fixpoint first_sentinel (entries : list jerryx_property_entry) : option nat :=
  match entries with
  | [] => None
  | e :: es =>
      match name e with
      | None => Some O
      | Some _ => option_map S (first_sentinel es)
      end
  end.

(** The values of [es], each with its index in the table, [es] starting at
    index [i]. *)
Fixpoint indexed_values (i : nat) (es : list jerryx_property_entry)
  : list (N * jerry_value_t) :=
  match es with
  | [] => []
  | e :: es' => (N.of_nat i, value e) :: indexed_values (S i) es'
  end.

(** The call [jerry_value_free (entries[idx].value)]. *)
Definition release_call (iv : N * jerry_value_t) : event :=
  EvValueFree (EntryValue (fst iv)) (snd iv).

(** Entries [i], ..., [j - 1] of the table. *)
Definition slice (i j : nat) (entries : list jerryx_property_entry)
  : list jerryx_property_entry :=
  firstn (j - i) (skipn i entries).

(** ** The runs of the registration loop

    [loop_run target entries i res tr]: a run of the loop of
    [jerryx_set_properties] that starts at index [i] ends with [res] and
    emits [tr].  The relation lists the four ways an iteration can go
    (budget used up, terminator found, set refused, set accepted) whatever
    the runtime answers; the handles [h] and [r] are the runtime's. *)
Section LoopRuns.

Context {RT : JerryRuntime}.

Definition accepted_events (idx : N) (s : string)
    (target h v r : jerry_value_t) : list event :=
  [EvEntry idx; EvStringSz s h; EvObjectSet target h v r;
   EvValueFree PropName h; EvValueFree (EntryValue idx) v;
   EvValueFree CallResult r].

Definition refused_events (idx : N) (s : string)
    (target h v r : jerry_value_t) : list event :=
  [EvEntry idx; EvStringSz s h; EvObjectSet target h v r;
   EvValueFree PropName h].

Inductive loop_run (target : jerry_value_t)
    (entries : list jerryx_property_entry)
  : nat -> outcome_of jerryx_register_result -> list event -> Prop :=
| run_out_of_fuel i :
    loop_run target entries i OutOfFuel []
| run_terminator i e :
    nth_error entries i = Some e ->
    name e = None ->
    loop_run target entries i
      (Ret (JERRYX_SET_PROPERTIES_RESULT jerry_undefined (N.of_nat i)))
      [EvEntry (N.of_nat i)]
| run_refused i e s h r :
    nth_error entries i = Some e ->
    name e = Some s ->
    jerry_value_is_boolean r = false ->
    loop_run target entries i
      (Ret (JERRYX_SET_PROPERTIES_RESULT r (N.of_nat i)))
      (refused_events (N.of_nat i) s target h (value e) r)
| run_accepted i e s h r res tr :
    nth_error entries i = Some e ->
    name e = Some s ->
    jerry_value_is_boolean r = true ->
    loop_run target entries (S i) res tr ->
    loop_run target entries i res
      (accepted_events (N.of_nat i) s target h (value e) r ++ tr).

End LoopRuns.

(** ** A scripted runtime

    A test double on which the handlers can be run: the handles the
    get/set/has calls return are taken in order from a script ([TOY_TRUE]
    once the script is used up), name handles are numbered from
    [next_string], and the handles released are remembered. *)
Module Toy.

Definition TOY_FALSE : jerry_value_t := 8.
Definition TOY_TRUE : jerry_value_t := 24.
Definition TOY_UNDEFINED : jerry_value_t := 72.
Definition TOY_ERROR : jerry_value_t := 7.

Record toy_state : Type := {
  script : list jerry_value_t;
  next_string : N;
  released : list jerry_value_t
}.

Definition answer (st : toy_state) : jerry_value_t * toy_state :=
  match script st with
  | [] => (TOY_TRUE, st)
  | r :: rs =>
      (r, {| script := rs; next_string := next_string st;
             released := released st |})
  end.

#[export] Instance runtime : JerryRuntime := {|
  rt_state := toy_state;
  rt_undefined := TOY_UNDEFINED;
  rt_string_sz := fun _ st =>
    (next_string st,
     {| script := script st; next_string := next_string st + 1;
        released := released st |});
  rt_object_set := fun _ _ _ st => answer st;
  rt_object_get := fun _ _ st => answer st;
  rt_object_has := fun _ _ st => answer st;
  rt_value_free := fun v st =>
    {| script := script st; next_string := next_string st;
       released := released st ++ [v] |};
  rt_value_is_boolean := fun v => N.eqb v TOY_TRUE || N.eqb v TOY_FALSE;
  rt_value_is_exception := fun v => N.eqb v TOY_ERROR;
  rt_value_is_true := fun v => N.eqb v TOY_TRUE
|}.

Definition start (answers : list jerry_value_t) : toy_state :=
  {| script := answers; next_string := 1000; released := [] |}.

Definition entry (s : string) (v : jerry_value_t) : jerryx_property_entry :=
  {| name := Some s; value := v |}.

Definition sentinel : jerryx_property_entry := {| name := None; value := 0 |}.

(** The table of the scenario: three named entries and the terminator. *)
Definition abc : list jerryx_property_entry :=
  [entry "a"%string 501; entry "b"%string 502; entry "c"%string 503;
   sentinel].

Definition target : jerry_value_t := 400.

End Toy.

(** The object and the value each [jerry_object_set] call was given, in
    order. *)
Fixpoint set_calls (tr : list event) : list (jerry_value_t * jerry_value_t) :=
  match tr with
  | [] => []
  | EvObjectSet obj _ val _ :: tr' => (obj, val) :: set_calls tr'
  | _ :: tr' => set_calls tr'
  end.

(** ** Registering entry by entry

    The loop a caller would write with the single-property accessor: each
    (name, value) pair is set with [jerryx_set_property_str]; after a set
    answered by a boolean the value and the answer are released, a set
    answered otherwise ends the loop.  [named_entries] lists the pairs of a
    table, up to its terminator. *)
Fixpoint named_entries (entries : list jerryx_property_entry)
  : list (string * jerry_value_t) :=
  match entries with
  | [] => []
  | e :: es =>
      match name e with
      | None => []
      | Some s => (s, value e) :: named_entries es
      end
  end.

Section EntryByEntry.

Context {RT : JerryRuntime}.

Fixpoint set_each (target_object : jerry_value_t)
    (pairs : list (string * jerry_value_t)) (idx : N)
  : M jerryx_register_result :=
  match pairs with
  | [] => ret (JERRYX_SET_PROPERTIES_RESULT jerry_undefined idx)
  | (s, v) :: rest =>
      bind (jerryx_set_property_str target_object s v) (fun result =>
        if negb (jerry_value_is_boolean result)
        then ret (JERRYX_SET_PROPERTIES_RESULT result idx)
        else
          bind (jerry_value_free (EntryValue idx) v) (fun _ =>
          bind (jerry_value_free CallResult result) (fun _ =>
          set_each target_object rest (idx + 1))))
  end.

End EntryByEntry.

(** ** Registration of a global function *)

(** [jerry_external_handler_t]: a pointer to a native function, kept as its
    address. *)
Definition jerry_external_handler_t : Type := N.

(** The two calls [jerryx_handler_register_global] makes beyond those of
    [JerryRuntime]. *)
Class JerryRealmRuntime (RT : JerryRuntime) : Type := {
  rt_current_realm : rt_state -> jerry_value_t * rt_state;
  rt_function_external :
    jerry_external_handler_t -> rt_state -> jerry_value_t * rt_state
}.

(** The local variable a released handle is held in. *)
Inductive global_origin : Type :=
| GlobalObjVal
| FunctionNameVal
| FunctionVal.

Inductive global_event : Type :=
| GEvCurrentRealm (ret : jerry_value_t)
| GEvStringSz (s : string) (ret : jerry_value_t)
| GEvFunctionExternal (handler : jerry_external_handler_t)
    (ret : jerry_value_t)
| GEvObjectSet (obj key val ret : jerry_value_t)
| GEvValueFree (what : global_origin) (v : jerry_value_t).

Section RegisterGlobal.

Context {RT : JerryRuntime} {RR : JerryRealmRuntime RT}.

(** The function cannot leave a table and has no loop: a computation
    transforms the runtime state, returns a value and emits the events of
    the calls it makes. *)
Definition G (A : Type) : Type := rt_state -> A * rt_state * list global_event.

Definition gret {A} (a : A) : G A := fun st => (a, st, []).

Definition gbind {A B} (m : G A) (k : A -> G B) : G B :=
  fun st =>
    let '(a, st1, t1) := m st in
    let '(b, st2, t2) := k a st1 in
    (b, st2, t1 ++ t2).

Definition global_current_realm : G jerry_value_t :=
  fun st =>
    let '(h, st') := rt_current_realm st in (h, st', [GEvCurrentRealm h]).

Definition global_string_sz (s : string) : G jerry_value_t :=
  fun st =>
    let '(h, st') := rt_string_sz s st in (h, st', [GEvStringSz s h]).

Definition global_function_external (handler : jerry_external_handler_t)
  : G jerry_value_t :=
  fun st =>
    let '(h, st') := rt_function_external handler st in
    (h, st', [GEvFunctionExternal handler h]).

Definition global_object_set (obj key val : jerry_value_t) : G jerry_value_t :=
  fun st =>
    let '(r, st') := rt_object_set obj key val st in
    (r, st', [GEvObjectSet obj key val r]).

Definition global_value_free (what : global_origin) (v : jerry_value_t)
  : G unit :=
  fun st => (tt, rt_value_free v st, [GEvValueFree what v]).

Definition jerryx_handler_register_global (name_p : string)
    (handler_p : jerry_external_handler_t) : G jerry_value_t :=
  gbind global_current_realm (fun global_obj_val =>
  gbind (global_string_sz name_p) (fun function_name_val =>
  gbind (global_function_external handler_p) (fun function_val =>
  gbind (global_object_set global_obj_val function_name_val function_val)
    (fun result_val =>
  gbind (global_value_free FunctionVal function_val) (fun _ =>
  gbind (global_value_free FunctionNameVal function_name_val) (fun _ =>
  gbind (global_value_free GlobalObjVal global_obj_val) (fun _ =>
  gret result_val))))))).

End RegisterGlobal.

(** Handles a trace of [jerryx_handler_register_global] obtains from the
    runtime to work with (the realm, the name, the function), the handles it
    releases, and its set calls. *)
Fixpoint global_acquired (tr : list global_event) : list jerry_value_t :=
  match tr with
  | [] => []
  | GEvCurrentRealm h :: tr' => h :: global_acquired tr'
  | GEvStringSz _ h :: tr' => h :: global_acquired tr'
  | GEvFunctionExternal _ h :: tr' => h :: global_acquired tr'
  | _ :: tr' => global_acquired tr'
  end.

Fixpoint global_released (tr : list global_event) : list jerry_value_t :=
  match tr with
  | [] => []
  | GEvValueFree _ h :: tr' => h :: global_released tr'
  | _ :: tr' => global_released tr'
  end.

Definition is_release (ev : global_event) : bool :=
  match ev with GEvValueFree _ _ => true | _ => false end.

(** A scripted realm for the scripted runtime: the realm object is [300],
    the function made for a handler at address [a] is [700 + a]. *)
Module ToyRealm.

#[export] Instance realm : JerryRealmRuntime Toy.runtime := {|
  rt_current_realm := fun st => (300, st);
  rt_function_external := fun a st => (700 + a, st)
|}.

End ToyRealm.

(** * Properties *)

(** ** Traces and tables *)

Lemma entries_read_app (a b : list event) :
  entries_read (a ++ b) = entries_read a ++ entries_read b.
Proof.
  induction a as [|ev a IH]; simpl; [reflexivity|].
  destruct ev; simpl; rewrite IH; reflexivity.
Qed.

Lemma set_results_app (a b : list event) :
  set_results (a ++ b) = set_results a ++ set_results b.
Proof.
  induction a as [|ev a IH]; simpl; [reflexivity|].
  destruct ev; simpl; rewrite IH; reflexivity.
Qed.

Lemma entry_values_freed_app (a b : list event) :
  entry_values_freed (a ++ b) = entry_values_freed a ++ entry_values_freed b.
Proof.
  induction a as [|ev a IH]; simpl; [reflexivity|].
  destruct ev as [| | | | |[| |]]; simpl; rewrite IH; reflexivity.
Qed.

Lemma results_freed_app (a b : list event) :
  results_freed (a ++ b) = results_freed a ++ results_freed b.
Proof.
  induction a as [|ev a IH]; simpl; [reflexivity|].
  destruct ev as [| | | | |[| |]]; simpl; rewrite IH; reflexivity.
Qed.

Lemma runtime_calls_app (a b : list event) :
  runtime_calls (a ++ b) = runtime_calls a ++ runtime_calls b.
Proof.
  induction a as [|ev a IH]; simpl; [reflexivity|].
  destruct ev; simpl; rewrite IH; reflexivity.
Qed.

Create Rewrite HintDb trace.

#[local] Hint Rewrite entries_read_app set_results_app entry_values_freed_app
  results_freed_app runtime_calls_app : trace.

(** The terminator is in the table, and the entries before it are named. *)
Lemma first_sentinel_terminator entries s :
  first_sentinel entries = Some s ->
  exists e, nth_error entries s = Some e /\ name e = None.
Proof.
  revert s; induction entries as [|e es IH]; intros s H; simpl in H.
  - discriminate.
  - destruct (name e) eqn:Hn.
    + destruct (first_sentinel es) as [s'|]; simpl in H; [|discriminate].
      injection H as <-. simpl. apply IH. reflexivity.
    + injection H as <-. exists e. split; [reflexivity | assumption].
Qed.

Lemma first_sentinel_named entries s i :
  first_sentinel entries = Some s ->
  (i < s)%nat ->
  exists e nm, nth_error entries i = Some e /\ name e = Some nm.
Proof.
  revert s i; induction entries as [|e es IH]; intros s i H Hi; simpl in H.
  - discriminate.
  - destruct (name e) as [nm|] eqn:Hn.
    + destruct (first_sentinel es) as [s'|]; simpl in H; [|discriminate].
      injection H as <-. destruct i as [|i]; simpl.
      * exists e, nm. split; [reflexivity | assumption].
      * apply (IH s'); [reflexivity | lia].
    + injection H as <-. lia.
Qed.

(** Up to the terminator every read hits the table; the entry read is the
    terminator exactly at index [s]. *)
Lemma first_sentinel_lookup entries s i :
  first_sentinel entries = Some s ->
  (i <= s)%nat ->
  exists e, nth_error entries i = Some e /\
            (name e = None -> i = s) /\ (i = s -> name e = None).
Proof.
  intros H Hi. destruct (Nat.eq_dec i s) as [->|Hne].
  - destruct (first_sentinel_terminator _ _ H) as (e & He & Hn).
    exists e. auto.
  - destruct (first_sentinel_named entries s i H) as (e & nm & He & Hn);
      [lia|].
    exists e. split; [assumption|]. split; [congruence | contradiction].
Qed.

(** A named entry at or before the terminator is strictly before it. *)
Lemma named_before_terminator entries s i e nm :
  first_sentinel entries = Some s ->
  (i <= s)%nat ->
  nth_error entries i = Some e ->
  name e = Some nm ->
  (i < s)%nat.
Proof.
  intros Hs Hi He Hn.
  destruct (first_sentinel_lookup _ _ _ Hs Hi) as (e' & He' & _ & Hlast).
  destruct (Nat.eq_dec i s) as [Heq|]; [|lia].
  specialize (Hlast Heq). congruence.
Qed.

Lemma slice_nil i entries : slice i i entries = [].
Proof. unfold slice. rewrite Nat.sub_diag. reflexivity. Qed.

Lemma skipn_nth_error {A} (l : list A) i x :
  nth_error l i = Some x -> skipn i l = x :: skipn (S i) l.
Proof.
  revert i; induction l as [|y l IH]; intros [|i] H; simpl in *;
    try discriminate.
  - congruence.
  - apply IH in H. rewrite H. destruct l; reflexivity.
Qed.

Lemma slice_cons i j entries e :
  nth_error entries i = Some e ->
  (i < j)%nat ->
  slice i j entries = e :: slice (S i) j entries.
Proof.
  intros He Hij. unfold slice. rewrite (skipn_nth_error _ _ _ He).
  replace (j - i)%nat with (S (j - S i)) by lia. reflexivity.
Qed.

Lemma slice_from_0 j entries : slice 0 j entries = firstn j entries.
Proof. unfold slice. rewrite Nat.sub_0_r. reflexivity. Qed.

Lemma uint32_incr_small (i : nat) :
  N.of_nat (S i) < UINT32_MODULUS ->
  uint32_incr (N.of_nat i) = N.of_nat (S i).
Proof.
  intros H. unfold uint32_incr.
  replace (N.of_nat i + 1) with (N.of_nat (S i)) by lia.
  apply N.mod_small. exact H.
Qed.

Lemma uint32_incr_le (idx : N) : uint32_incr idx <= idx + 1.
Proof.
  unfold uint32_incr. apply N.Div0.mod_le.
Qed.

Lemma result_of_run {A S T} (res : outcome_of A) (st : S) (tr : T) :
  result_of (res, st, tr) = res.
Proof. reflexivity. Qed.

Lemma state_of_run {A S T} (res : outcome_of A) (st : S) (tr : T) :
  state_of (res, st, tr) = st.
Proof. reflexivity. Qed.

Lemma trace_of_run {A S T} (res : outcome_of A) (st : S) (tr : T) :
  trace_of (res, st, tr) = tr.
Proof. reflexivity. Qed.

#[local] Hint Rewrite @result_of_run @state_of_run @trace_of_run : trace.

(** ** One iteration of the loops *)

Section Iterations.

Context {RT : JerryRuntime}.

Variable target : jerry_value_t.
Variable entries : list jerryx_property_entry.

Lemma set_properties_loop_terminator fuel idx e st :
  nth_error entries (N.to_nat idx) = Some e ->
  name e = None ->
  set_properties_loop (S fuel) target entries idx st =
  (Ret (JERRYX_SET_PROPERTIES_RESULT jerry_undefined idx), st, [EvEntry idx]).
Proof.
  intros He Hn. simpl. unfold bind, entry_at. rewrite He, Hn. reflexivity.
Qed.

Lemma set_properties_loop_named fuel idx e s st :
  nth_error entries (N.to_nat idx) = Some e ->
  name e = Some s ->
  let h := fst (rt_string_sz s st) in
  let r := fst (rt_object_set target h (value e) (snd (rt_string_sz s st))) in
  let st1 :=
    rt_value_free h
      (snd (rt_object_set target h (value e) (snd (rt_string_sz s st)))) in
  set_properties_loop (S fuel) target entries idx st =
  if jerry_value_is_boolean r
  then
    let run :=
      set_properties_loop fuel target entries (uint32_incr idx)
        (rt_value_free r (rt_value_free (value e) st1)) in
    (result_of run, state_of run,
     accepted_events idx s target h (value e) r ++ trace_of run)
  else
    (Ret (JERRYX_SET_PROPERTIES_RESULT r idx), st1,
     refused_events idx s target h (value e) r).
Proof.
  intros He Hn h r st1. subst h r st1. simpl.
  unfold bind, entry_at, jerry_string_sz, jerry_object_set, jerry_value_free.
  rewrite He, Hn.
  destruct (rt_string_sz s st) as [h s1]; simpl.
  destruct (rt_object_set target h (value e) s1) as [r s2]; simpl.
  destruct (jerry_value_is_boolean r); simpl; [|reflexivity].
  destruct (set_properties_loop fuel target entries (uint32_incr idx) _)
    as [[res st'] tr].
  reflexivity.
Qed.

Lemma set_properties_loop_fault fuel idx st :
  nth_error entries (N.to_nat idx) = None ->
  set_properties_loop (S fuel) target entries idx st =
  (Fault, st, [EvEntry idx]).
Proof.
  intros He. simpl. unfold bind, entry_at. rewrite He. reflexivity.
Qed.

Lemma release_loop_terminator fuel idx e st :
  nth_error entries (N.to_nat idx) = Some e ->
  name e = None ->
  release_property_entry_loop (S fuel) entries idx st =
  (Ret tt, st, [EvEntry idx]).
Proof.
  intros He Hn. simpl. unfold bind, entry_at. rewrite He, Hn. reflexivity.
Qed.

Lemma release_loop_named fuel idx e s st :
  nth_error entries (N.to_nat idx) = Some e ->
  name e = Some s ->
  release_property_entry_loop (S fuel) entries idx st =
  let run :=
    release_property_entry_loop fuel entries (uint32_incr idx)
      (rt_value_free (value e) st) in
  (result_of run, state_of run,
   [EvEntry idx; EvValueFree (EntryValue idx) (value e)] ++ trace_of run).
Proof.
  intros He Hn. simpl. unfold bind, entry_at, jerry_value_free.
  rewrite He, Hn.
  destruct (release_property_entry_loop fuel entries (uint32_incr idx) _)
    as [[res st'] tr].
  reflexivity.
Qed.

(** *** The registration loop follows [loop_run] *)

Lemma set_properties_loop_run s :
  first_sentinel entries = Some s ->
  N.of_nat s < UINT32_MODULUS ->
  forall fuel i st,
    (i <= s)%nat ->
    let run := set_properties_loop fuel target entries (N.of_nat i) st in
    loop_run target entries i (result_of run) (trace_of run).
Proof.
  intros Hs Hbound fuel. induction fuel as [|fuel IH]; intros i st Hi run.
  - apply run_out_of_fuel.
  - destruct (first_sentinel_lookup _ _ _ Hs Hi) as (e & He & Hlast & _).
    subst run. destruct (name e) as [nm|] eqn:Hn.
    + pose proof (named_before_terminator _ _ _ _ _ Hs Hi He Hn) as Hlt.
      rewrite (set_properties_loop_named fuel (N.of_nat i) e nm st)
        by (rewrite ?Nat2N.id; assumption).
      cbv zeta.
      destruct (jerry_value_is_boolean _) eqn:Hb.
      * rewrite uint32_incr_small by lia.
        rewrite result_of_run, trace_of_run.
        apply run_accepted with (e := e); try assumption.
        apply IH. lia.
      * apply run_refused with (e := e); auto.
    + rewrite (set_properties_loop_terminator fuel (N.of_nat i) e st)
        by (rewrite ?Nat2N.id; assumption).
      apply run_terminator with (e := e); auto.
Qed.

(** With a budget beyond the terminator the loop returns. *)
Lemma loop_run_fuel s :
  first_sentinel entries = Some s ->
  N.of_nat s < UINT32_MODULUS ->
  forall fuel i st,
    (i <= s)%nat ->
    (s - i < fuel)%nat ->
    result_of (set_properties_loop fuel target entries (N.of_nat i) st)
    <> OutOfFuel.
Proof.
  intros Hs Hbound fuel. induction fuel as [|fuel IH]; intros i st Hi Hf.
  - lia.
  - destruct (first_sentinel_lookup _ _ _ Hs Hi) as (e & He & Hlast & _).
    destruct (name e) as [nm|] eqn:Hn.
    + pose proof (named_before_terminator _ _ _ _ _ Hs Hi He Hn) as Hlt.
      rewrite (set_properties_loop_named fuel (N.of_nat i) e nm st)
        by (rewrite ?Nat2N.id; assumption).
      cbv zeta.
      destruct (jerry_value_is_boolean _) eqn:Hb.
      * rewrite uint32_incr_small by lia. rewrite result_of_run.
        apply IH; lia.
      * discriminate.
    + rewrite (set_properties_loop_terminator fuel (N.of_nat i) e st)
        by (rewrite ?Nat2N.id; assumption).
      discriminate.
Qed.

End Iterations.

(** ** What a run of the registration loop tells *)

Lemma indexed_values_bounds i es j v :
  In (j, v) (indexed_values i es) ->
  N.of_nat i <= j < N.of_nat (i + List.length es).
Proof.
  revert i; induction es as [|e es IH]; intros i H; simpl in H.
  - contradiction.
  - destruct H as [H|H].
    + injection H as <- _. simpl. lia.
    + apply IH in H. simpl. lia.
Qed.

Lemma slice_length i j entries : (List.length (slice i j entries) <= j - i)%nat.
Proof. unfold slice. rewrite length_firstn. lia. Qed.

Section RunFacts.

Context {RT : JerryRuntime}.

Variable target : jerry_value_t.
Variable entries : list jerryx_property_entry.

(** A refused set ends the run: if the [k]-th set of a run that starts at
    index [i] is answered by a handle that is not a boolean, the run returns
    that handle with the index [i + k], and its trace ends with the events
    of the refused iteration. *)
Lemma loop_run_refused i res tr :
  loop_run target entries i res tr ->
  forall k r,
    nth_error (set_results tr) k = Some r ->
    jerry_value_is_boolean r = false ->
    res = Ret (JERRYX_SET_PROPERTIES_RESULT r (N.of_nat (i + k))) /\
    List.length (set_results tr) = S k /\
    Forall (fun r' => jerry_value_is_boolean r' = true)
      (firstn k (set_results tr)) /\
    entries_read tr = map N.of_nat (seq i (S k)) /\
    entry_values_freed tr = indexed_values i (slice i (i + k) entries) /\
    results_freed tr = firstn k (set_results tr) /\
    exists pre e s h,
      nth_error entries (i + k) = Some e /\ name e = Some s /\
      tr = pre ++ refused_events (N.of_nat (i + k)) s target h (value e) r.
Proof.
  induction 1 as [i | i e He Hn | i e s h r0 He Hn Hb
                 | i e s h r0 res tr He Hn Hb Hrun IH]; intros k r Hk Hr.
  - destruct k; discriminate.
  - destruct k; discriminate.
  - destruct k as [|k]; simpl in Hk; [|destruct k; discriminate].
    injection Hk as ->. rewrite Nat.add_0_r, slice_nil.
    repeat split; try reflexivity.
    + constructor.
    + exists [], e, s, h. auto.
  - unfold accepted_events in *. autorewrite with trace in *. simpl in Hk |- *.
    destruct k as [|k]; simpl in Hk.
    + injection Hk as ->. congruence.
    + destruct (IH k r Hk Hr) as (Hres & Hlen & Hall & Hrd & Hfr & Hrf & Hsuf).
      replace (i + S k)%nat with (S i + k)%nat by lia.
      rewrite (slice_cons i (S i + k) entries e He) by lia.
      repeat split.
      * assumption.
      * simpl. congruence.
      * constructor; assumption.
      * rewrite Hrd. reflexivity.
      * rewrite Hfr. reflexivity.
      * rewrite Hrf. reflexivity.
      * destruct Hsuf as (pre & e' & s' & h' & He' & Hn' & ->).
        exists ([EvEntry (N.of_nat i); EvStringSz s h;
                 EvObjectSet target h (value e) r0; EvValueFree PropName h;
                 EvValueFree (EntryValue (N.of_nat i)) (value e);
                 EvValueFree CallResult r0] ++ pre), e', s', h'.
        auto.
Qed.

(** When every set is answered by a boolean, a run that returns has gone
    through the whole table. *)
Lemma loop_run_accepted s i res tr :
  first_sentinel entries = Some s ->
  loop_run target entries i res tr ->
  (i <= s)%nat ->
  res <> OutOfFuel ->
  Forall (fun r => jerry_value_is_boolean r = true) (set_results tr) ->
  res = Ret (JERRYX_SET_PROPERTIES_RESULT jerry_undefined (N.of_nat s)) /\
  List.length (set_results tr) = (s - i)%nat /\
  entries_read tr = map N.of_nat (seq i (S (s - i))) /\
  entry_values_freed tr = indexed_values i (slice i s entries) /\
  results_freed tr = set_results tr.
Proof.
  intros Hs Hrun.
  induction Hrun as [i | i e He Hn | i e nm h r0 He Hn Hb
                    | i e nm h r0 res tr He Hn Hb Hrun IH]; intros Hi Hres Hall.
  - congruence.
  - destruct (first_sentinel_lookup _ _ _ Hs Hi) as (e' & He' & Hlast & _).
    assert (i = s) as -> by (apply Hlast; congruence).
    rewrite Nat.sub_diag, slice_nil. repeat split; reflexivity.
  - simpl in Hall. inversion Hall; congruence.
  - pose proof (named_before_terminator _ _ _ _ _ Hs Hi He Hn) as Hlt.
    unfold accepted_events in *. autorewrite with trace in *.
    simpl in Hall |- *. inversion Hall as [|? ? _ Hall']; subst.
    destruct (IH Hlt Hres Hall') as (Hr & Hlen & Hrd & Hfr & Hrf).
    rewrite (slice_cons i s entries e He) by lia.
    replace (s - i)%nat with (S (s - S i)) by lia.
    repeat split.
    + assumption.
    + simpl. congruence.
    + rewrite Hrd. reflexivity.
    + rewrite Hfr. reflexivity.
    + rewrite Hrf. reflexivity.
Qed.


End RunFacts.

(** ** Reads of the table *)

Section Safety.

Context {RT : JerryRuntime}.

Variable entries : list jerryx_property_entry.
Variable s : nat.
Hypothesis terminated : first_sentinel entries = Some s.

(** An index at or before the terminator holds an entry; a named one lies
    strictly before the terminator, so that the next index, wrapped or not,
    is still at or before it. *)
Lemma lookup_before_terminator (idx : N) :
  idx <= N.of_nat s ->
  exists e,
    nth_error entries (N.to_nat idx) = Some e /\
    (name e <> None -> uint32_incr idx <= N.of_nat s).
Proof.
  intros Hidx.
  destruct (first_sentinel_lookup entries s (N.to_nat idx) terminated)
    as (e & He & _ & Hlast); [lia|].
  exists e. split; [assumption|]. intros Hn.
  assert (N.to_nat idx <> s) by (intros Heq; apply Hn, Hlast, Heq).
  pose proof (uint32_incr_le idx). lia.
Qed.

Lemma set_properties_loop_safe target fuel :
  forall idx st,
    idx <= N.of_nat s ->
    let run := set_properties_loop fuel target entries idx st in
    result_of run <> Fault /\
    Forall (fun i => i <= N.of_nat s) (entries_read (trace_of run)) /\
    (forall rr, result_of run = Ret rr -> registered rr <= N.of_nat s).
Proof.
  induction fuel as [|fuel IH]; intros idx st Hidx run; subst run.
  - simpl. repeat split; [discriminate | constructor | discriminate].
  - destruct (lookup_before_terminator idx Hidx) as (e & He & Hnext).
    destruct (name e) as [nm|] eqn:Hn.
    + rewrite (set_properties_loop_named target entries fuel idx e nm st He Hn).
      cbv zeta. destruct (jerry_value_is_boolean _).
      * autorewrite with trace. simpl.
        match goal with
        | |- context [set_properties_loop fuel target entries ?i ?st'] =>
            destruct (IH i st') as (Hf & Hrd & Hreg)
        end; [apply Hnext; discriminate|].
        repeat split; [assumption | constructor; assumption | assumption].
      * autorewrite with trace. simpl.
        repeat split; [discriminate | repeat constructor; assumption |].
        intros rr [= <-]. exact Hidx.
    + rewrite (set_properties_loop_terminator target entries fuel idx e st He Hn).
      autorewrite with trace. simpl.
      repeat split; [discriminate | repeat constructor; assumption |].
      intros rr [= <-]. exact Hidx.
Qed.

Lemma release_loop_safe fuel :
  forall idx st,
    idx <= N.of_nat s ->
    let run := release_property_entry_loop fuel entries idx st in
    result_of run <> Fault /\
    Forall (fun i => i <= N.of_nat s) (entries_read (trace_of run)).
Proof.
  induction fuel as [|fuel IH]; intros idx st Hidx run; subst run.
  - simpl. split; [discriminate | constructor].
  - destruct (lookup_before_terminator idx Hidx) as (e & He & Hnext).
    destruct (name e) as [nm|] eqn:Hn.
    + rewrite (release_loop_named entries fuel idx e nm st He Hn).
      cbv zeta. autorewrite with trace. simpl.
      match goal with
      | |- context [release_property_entry_loop fuel entries ?i ?st'] =>
          destruct (IH i st') as (Hf & Hrd)
      end; [apply Hnext; discriminate|].
      split; [assumption | constructor; assumption].
    + rewrite (release_loop_terminator entries fuel idx e st He Hn).
      autorewrite with trace. simpl.
      split; [discriminate | repeat constructor; assumption].
Qed.

(** *** The release loop, from index [i] to the terminator *)

Lemma release_loop_run fuel :
  N.of_nat s < UINT32_MODULUS ->
  forall i st,
    (i <= s)%nat ->
    (s - i < fuel)%nat ->
    let run := release_property_entry_loop fuel entries (N.of_nat i) st in
    result_of run = Ret tt /\
    entries_read (trace_of run) = map N.of_nat (seq i (S (s - i))) /\
    entry_values_freed (trace_of run) = indexed_values i (slice i s entries) /\
    runtime_calls (trace_of run)
    = map release_call (indexed_values i (slice i s entries)).
Proof.
  intros Hbound. induction fuel as [|fuel IH]; intros i st Hi Hf run; [lia|].
  subst run.
  destruct (first_sentinel_lookup entries s i terminated Hi)
    as (e & He & Hlast & Hterm).
  destruct (name e) as [nm|] eqn:Hn.
  - pose proof (named_before_terminator _ _ _ _ _ terminated Hi He Hn) as Hlt.
    rewrite (release_loop_named entries fuel (N.of_nat i) e nm st)
      by (rewrite ?Nat2N.id; assumption).
    cbv zeta. rewrite uint32_incr_small by lia.
    autorewrite with trace.
    destruct (IH (S i) (rt_value_free (value e) st)) as (Hr & Hrd & Hfr & Hc);
      [lia | lia |].
    rewrite (slice_cons i s entries e He Hlt).
    replace (s - i)%nat with (S (s - S i)) by lia.
    repeat split.
    + assumption.
    + rewrite Hrd. reflexivity.
    + rewrite Hfr. reflexivity.
    + rewrite Hc. reflexivity.
  - assert (i = s) as -> by (apply Hlast; reflexivity).
    rewrite (release_loop_terminator entries fuel (N.of_nat s) e st)
      by (rewrite ?Nat2N.id; assumption).
    rewrite Nat.sub_diag, slice_nil. repeat split; reflexivity.
Qed.

End Safety.

(** ** Name handles *)

Lemma prop_names_released_once_count tr :
  forall live,
    prop_names_released_once live tr = true ->
    (count_string_sz tr + match live with Some _ => 1 | None => 0 end)%nat
    = count_prop_name_free tr.
Proof.
  unfold count_string_sz, count_prop_name_free.
  induction tr as [|ev tr IH]; intros live H; simpl in H.
  - destruct live; [discriminate | reflexivity].
  - destruct ev as [| sz h | | | | [| |] v]; simpl;
      try (apply IH; assumption).
    + destruct live; [discriminate|]. rewrite <- (IH _ H). lia.
    + destruct live as [h'|]; [|discriminate].
      apply andb_prop in H as [_ H]. rewrite <- (IH _ H). simpl. lia.
Qed.

Section NameHandles.

Context {RT : JerryRuntime}.

Lemma set_properties_loop_names target entries fuel :
  forall idx st,
    prop_names_released_once None
      (trace_of (set_properties_loop fuel target entries idx st)) = true.
Proof.
  induction fuel as [|fuel IH]; intros idx st; [reflexivity|].
  destruct (nth_error entries (N.to_nat idx)) as [e|] eqn:He.
  - destruct (name e) as [nm|] eqn:Hn.
    + rewrite (set_properties_loop_named target entries fuel idx e nm st He Hn).
      cbv zeta. destruct (jerry_value_is_boolean _).
      * autorewrite with trace. simpl. rewrite N.eqb_refl. apply IH.
      * autorewrite with trace. simpl. rewrite N.eqb_refl. reflexivity.
    + rewrite (set_properties_loop_terminator target entries fuel idx e st He Hn).
      reflexivity.
  - rewrite (set_properties_loop_fault target entries fuel idx st He).
    reflexivity.
Qed.

End NameHandles.

Lemma indexed_values_length i es :
  List.length (indexed_values i es) = List.length es.
Proof.
  revert i; induction es as [|e es IH]; intros i; simpl; [reflexivity|].
  rewrite IH. reflexivity.
Qed.

Lemma first_sentinel_in_table entries s :
  first_sentinel entries = Some s -> (s < List.length entries)%nat.
Proof.
  intros H. destruct (first_sentinel_terminator _ _ H) as (e & He & _).
  apply nth_error_Some. congruence.
Qed.

Lemma slice_length_eq i j entries :
  (j <= List.length entries)%nat ->
  List.length (slice i j entries) = (j - i)%nat.
Proof.
  intros H. unfold slice. rewrite length_firstn, length_skipn. lia.
Qed.

Lemma indexed_values_NoDup es :
  forall i,
    NoDup (map fst (indexed_values i es)) /\
    forall j, In j (map fst (indexed_values i es)) -> N.of_nat i <= j.
Proof.
  induction es as [|e es IH]; intros i; simpl.
  - split; [constructor | contradiction].
  - destruct (IH (S i)) as (Hnd & Hge). split.
    + constructor; [|assumption]. intros Hin. apply Hge in Hin. lia.
    + intros j [<-|Hin]; [lia|]. apply Hge in Hin. lia.
Qed.

(** ** Sets answered by a boolean *)

Section Continuation.

Context {RT : JerryRuntime}.

Variable target : jerry_value_t.
Variable entries : list jerryx_property_entry.

(** A run that returns has read the entry it started at and returns a count
    that is not below it. *)
Lemma loop_run_returns i res tr :
  loop_run target entries i res tr ->
  forall rr,
    res = Ret rr ->
    N.of_nat i <= registered rr /\ In (N.of_nat i) (entries_read tr).
Proof.
  induction 1 as [i | i e He Hn | i e s h r0 He Hn Hb
                 | i e s h r0 res tr He Hn Hb Hrun IH]; intros rr Hres.
  - discriminate.
  - injection Hres as <-. simpl. split; [lia | auto].
  - injection Hres as <-. simpl. split; [lia | auto].
  - destruct (IH rr Hres) as (Hle & _). split; [lia|].
    unfold accepted_events. autorewrite with trace. simpl. auto.
Qed.


End Continuation.

(** * The claims *)

(** ** Batch registration *)


(** C2.  In a table terminated at index [s] (fewer than 2^32 entries), when
    every call of [jerry_object_set] is answered by a boolean,
    [jerryx_set_properties] returns [{ undefined, s }]; it made [s] set
    calls, and it released the value of every entry before the terminator,
    in order, once each. *)
Theorem set_properties_registers_all {RT : JerryRuntime}
    (target : jerry_value_t) (entries : list jerryx_property_entry)
    (s fuel : nat) (st : rt_state) :
  first_sentinel entries = Some s ->
  N.of_nat s < UINT32_MODULUS ->
  (s < fuel)%nat ->
  let run := jerryx_set_properties fuel target (Some entries) st in
  Forall (fun r => jerry_value_is_boolean r = true)
    (set_results (trace_of run)) ->
  result_of run
  = Ret {| outcome := jerry_undefined; registered := N.of_nat s |} /\
  List.length (set_results (trace_of run)) = s /\
  entry_values_freed (trace_of run) = indexed_values 0 (firstn s entries) /\
  List.length (entry_values_freed (trace_of run)) = s /\
  NoDup (map fst (entry_values_freed (trace_of run))).
Proof.
  intros Hs Hbound Hfuel run Hall. subst run.
  unfold jerryx_set_properties in *.
  pose proof (set_properties_loop_run target entries s Hs Hbound fuel 0 st
                (Nat.le_0_l s)) as Hrun.
  pose proof (loop_run_fuel target entries s Hs Hbound fuel 0 st
                (Nat.le_0_l s)) as Hfin.
  cbv zeta in Hrun. change (N.of_nat 0) with 0 in Hrun, Hfin.
  destruct (loop_run_accepted target entries s 0 _ _ Hs Hrun (Nat.le_0_l s))
    as (Hres & Hlen & _ & Hfr & _); [apply Hfin; lia | assumption |].
  rewrite slice_from_0 in Hfr. rewrite Nat.sub_0_r in Hlen.
  pose proof (first_sentinel_in_table _ _ Hs) as Hlt.
  repeat split; try assumption.
  - rewrite Hfr, indexed_values_length, length_firstn. lia.
  - rewrite Hfr. apply indexed_values_NoDup.
Qed.

(** ** Cleanup *)

(** C3.  Let [rr] be the result [jerryx_set_properties] returned for a table
    terminated at index [s] (an index that fits [uint32_t]).  Then [jerryx_release_property_entry], called
    with the table and [rr], returns; the calls it makes into the runtime
    are the releases of the values of the entries [registered rr .. s-1], in
    order, once each, and nothing else; in particular no value of an index
    below [registered rr] is released, and when [registered rr = s] it makes
    no call at all. *)
Theorem release_property_entry_releases_unregistered {RT : JerryRuntime}
    (target : jerry_value_t) (entries : list jerryx_property_entry)
    (s fuel0 : nat) (st0 : rt_state) (rr : jerryx_register_result)
    (fuel : nat) (st : rt_state) :
  first_sentinel entries = Some s ->
  N.of_nat s < UINT32_MODULUS ->
  result_of (jerryx_set_properties fuel0 target (Some entries) st0) = Ret rr ->
  (s < fuel)%nat ->
  let run := jerryx_release_property_entry fuel (Some entries) rr st in
  let k := N.to_nat (registered rr) in
  result_of run = Ret tt /\
  (k <= s)%nat /\
  runtime_calls (trace_of run)
  = map release_call (indexed_values k (slice k s entries)) /\
  entry_values_freed (trace_of run) = indexed_values k (slice k s entries) /\
  List.length (entry_values_freed (trace_of run)) = (s - k)%nat /\
  NoDup (map fst (entry_values_freed (trace_of run))) /\
  (forall j v,
     In (j, v) (entry_values_freed (trace_of run)) ->
     registered rr <= j < N.of_nat s) /\
  (registered rr = N.of_nat s -> runtime_calls (trace_of run) = []).
Proof.
  intros Hs Hbound Hrr Hfuel run k. subst run.
  unfold jerryx_set_properties, jerryx_release_property_entry in *.
  assert (Hk : (k <= s)%nat).
  { destruct (set_properties_loop_safe entries s Hs target fuel0 0 st0)
      as (_ & _ & Hreg); [lia|].
    specialize (Hreg rr Hrr). subst k. lia. }
  replace (registered rr) with (N.of_nat k) by (subst k; lia).
  destruct (release_loop_run entries s Hs fuel Hbound k st Hk)
    as (Hres & _ & Hfr & Hcalls); [lia|].
  pose proof (first_sentinel_in_table _ _ Hs) as Hlt.
  pose proof (slice_length_eq k s entries) as Hlen.
  split; [assumption|]. split; [assumption|]. split; [assumption|].
  split; [assumption|]. split; [|split; [|split]].
  - rewrite Hfr, indexed_values_length. apply Hlen. lia.
  - rewrite Hfr. apply indexed_values_NoDup.
  - intros j v Hin. rewrite Hfr in Hin. apply indexed_values_bounds in Hin.
    rewrite Hlen in Hin by lia. lia.
  - intros Heq. rewrite Hcalls.
    assert (k = s) as -> by lia. rewrite slice_nil. reflexivity.
Qed.

(** ** The refused set *)

(** C4, as the code has it.  In a table terminated at an index that fits
    [uint32_t], when the [k]-th set call is answered by a handle [r] that is
    not a boolean, [r] is what [jerryx_set_properties] returns
    as [outcome]; the function does not release it.  The results it releases
    are those of the [k] calls before, the only event after the refused call
    is the release of the name handle, and no value of the entry [k] is
    released. *)
Theorem refused_result_returned_not_released {RT : JerryRuntime}
    (target : jerry_value_t) (entries : list jerryx_property_entry)
    (s fuel : nat) (st : rt_state) (k : nat) (r : jerry_value_t) :
  first_sentinel entries = Some s ->
  N.of_nat s < UINT32_MODULUS ->
  let run := jerryx_set_properties fuel target (Some entries) st in
  nth_error (set_results (trace_of run)) k = Some r ->
  jerry_value_is_boolean r = false ->
  (exists rr, result_of run = Ret rr /\ outcome rr = r) /\
  results_freed (trace_of run) = firstn k (set_results (trace_of run)) /\
  List.length (results_freed (trace_of run)) = k /\
  (exists pre e nm h,
     nth_error entries k = Some e /\ name e = Some nm /\
     trace_of run
     = pre ++ [EvEntry (N.of_nat k); EvStringSz nm h;
               EvObjectSet target h (value e) r; EvValueFree PropName h]) /\
  (forall v, ~ In (N.of_nat k, v) (entry_values_freed (trace_of run))).
Proof.
  intros Hs Hbound run Hk Hr. subst run. unfold jerryx_set_properties in *.
  pose proof (set_properties_loop_run target entries s Hs Hbound fuel 0 st
                (Nat.le_0_l s)) as Hrun.
  cbv zeta in Hrun. change (N.of_nat 0) with 0 in Hrun.
  destruct (loop_run_refused target entries 0 _ _ Hrun k r Hk Hr)
    as (Hres & Hlen & _ & _ & Hfr & Hrf & Hsuf).
  simpl Nat.add in *. rewrite slice_from_0 in Hfr.
  repeat split.
  - eexists. split; [exact Hres | reflexivity].
  - assumption.
  - rewrite Hrf, length_firstn. lia.
  - exact Hsuf.
  - intros v Hin. rewrite Hfr in Hin. apply indexed_values_bounds in Hin.
    pose proof (length_firstn k entries). lia.
Qed.

(** ** Absent table *)

(** C5.  With no table, [jerryx_set_properties] returns [{ undefined, 0 }]
    and [jerryx_release_property_entry] returns; neither touches the runtime
    state nor makes any call or read. *)
Theorem absent_table_is_noop {RT : JerryRuntime}
    (fuel : nat) (target : jerry_value_t) (rr : jerryx_register_result)
    (st : rt_state) :
  jerryx_set_properties fuel target None st
  = (Ret {| outcome := jerry_undefined; registered := 0 |}, st, []) /\
  jerryx_release_property_entry fuel None rr st = (Ret tt, st, []).
Proof. split; reflexivity. Qed.

(** ** Accessors *)

(** C6.  [jerryx_has_property_str] returns [true] exactly when the handle
    [jerry_object_has] returned is not an exception and is the true value;
    it returns [false] when that handle is an exception, as it does when the
    handle is not the true value. *)
Theorem has_property_str_collapses_errors {RT : JerryRuntime}
    (target : jerry_value_t) (name : string) (st : rt_state) :
  let h := fst (rt_string_sz name st) in
  let r := fst (rt_object_has target h (snd (rt_string_sz name st))) in
  let run := jerryx_has_property_str target name st in
  (exists b, result_of run = Ret b) /\
  (result_of run = Ret true <->
   jerry_value_is_exception r = false /\ jerry_value_is_true r = true) /\
  (jerry_value_is_exception r = true -> result_of run = Ret false) /\
  (jerry_value_is_true r = false -> result_of run = Ret false).
Proof.
  intros h r run. subst h r run.
  unfold jerryx_has_property_str, bind, jerry_string_sz, jerry_object_has,
    jerry_value_free, ret.
  destruct (rt_string_sz name st) as [h s1]; simpl.
  destruct (rt_object_has target h s1) as [r s2]; simpl.
  destruct (jerry_value_is_exception r), (jerry_value_is_true r); simpl;
    unfold result_of; simpl; repeat split; eauto;
    try discriminate; intros [? ?]; discriminate.
Qed.

(** C7.  Whatever the runtime answers, every name handle made by
    [jerry_string_sz] is released once: in the trace of
    [jerryx_set_properties] (any table, any budget, any way the run ends)
    each name handle is released before the next one is made and before the
    run ends, and the three accessors make one name handle and release it
    after the call that uses it. *)
Theorem prop_name_released_once {RT : JerryRuntime} :
  (forall fuel target entries st,
     let tr := trace_of (jerryx_set_properties fuel target entries st) in
     prop_names_released_once None tr = true /\
     count_string_sz tr = count_prop_name_free tr) /\
  (forall target name value st,
     let h := fst (rt_string_sz name st) in
     let r := fst (rt_object_set target h value (snd (rt_string_sz name st))) in
     let tr := trace_of (jerryx_set_property_str target name value st) in
     tr = [EvStringSz name h; EvObjectSet target h value r;
           EvValueFree PropName h] /\
     prop_names_released_once None tr = true) /\
  (forall target name st,
     let h := fst (rt_string_sz name st) in
     let r := fst (rt_object_get target h (snd (rt_string_sz name st))) in
     let tr := trace_of (jerryx_get_property_str target name st) in
     tr = [EvStringSz name h; EvObjectGet target h r; EvValueFree PropName h] /\
     prop_names_released_once None tr = true) /\
  (forall target name st,
     let h := fst (rt_string_sz name st) in
     let r := fst (rt_object_has target h (snd (rt_string_sz name st))) in
     let tr := trace_of (jerryx_has_property_str target name st) in
     tr = [EvStringSz name h; EvObjectHas target h r;
           EvValueFree CallResult r; EvValueFree PropName h] /\
     prop_names_released_once None tr = true).
Proof.
  split; [|split; [|split]].
  - intros fuel target entries st tr.
    assert (H : prop_names_released_once None tr = true).
    { subst tr. destruct entries as [entries|]; simpl; [|reflexivity].
      apply set_properties_loop_names. }
    split; [exact H|].
    rewrite <- (prop_names_released_once_count tr None H). lia.
  - intros target name value st h r tr. subst h r tr.
    unfold jerryx_set_property_str, bind, jerry_string_sz, jerry_object_set,
      jerry_value_free, ret.
    destruct (rt_string_sz name st) as [h s1]; simpl.
    destruct (rt_object_set target h value s1) as [r s2]; simpl.
    rewrite N.eqb_refl. split; reflexivity.
  - intros target name st h r tr. subst h r tr.
    unfold jerryx_get_property_str, bind, jerry_string_sz, jerry_object_get,
      jerry_value_free, ret.
    destruct (rt_string_sz name st) as [h s1]; simpl.
    destruct (rt_object_get target h s1) as [r s2]; simpl.
    rewrite N.eqb_refl. split; reflexivity.
  - intros target name st h r tr. subst h r tr.
    unfold jerryx_has_property_str, bind, jerry_string_sz, jerry_object_has,
      jerry_value_free, ret.
    destruct (rt_string_sz name st) as [h s1]; simpl.
    destruct (rt_object_has target h s1) as [r s2]; simpl.
    rewrite N.eqb_refl. split; reflexivity.
Qed.

(** ** Reads of the entry table *)

(** C8.  In a table whose first terminator is at index [s],
    [jerryx_set_properties] reads entries of index at most [s] only and never
    leaves the table, whatever the budget and the runtime, and the count it
    returns is at most [s]; [jerryx_release_property_entry], called with a
    result that [jerryx_set_properties] returned for the table, reads
    entries of index at most [s] only and never leaves the table; the same
    holds for every result whose count is at most [s]. *)
Theorem reads_stay_within_terminator {RT : JerryRuntime}
    (entries : list jerryx_property_entry) (s : nat) :
  first_sentinel entries = Some s ->
  (forall fuel target st,
     let run := jerryx_set_properties fuel target (Some entries) st in
     result_of run <> Fault /\
     Forall (fun i => i <= N.of_nat s) (entries_read (trace_of run)) /\
     (forall rr, result_of run = Ret rr -> registered rr <= N.of_nat s)) /\
  (forall fuel0 target st0 rr,
     result_of (jerryx_set_properties fuel0 target (Some entries) st0)
     = Ret rr ->
     forall fuel st,
       let run := jerryx_release_property_entry fuel (Some entries) rr st in
       result_of run <> Fault /\
       Forall (fun i => i <= N.of_nat s) (entries_read (trace_of run))) /\
  (forall fuel rr st,
     registered rr <= N.of_nat s ->
     let run := jerryx_release_property_entry fuel (Some entries) rr st in
     result_of run <> Fault /\
     Forall (fun i => i <= N.of_nat s) (entries_read (trace_of run))).
Proof.
  intros Hs.
  assert (Hset : forall fuel target st,
             let run := jerryx_set_properties fuel target (Some entries) st in
             result_of run <> Fault /\
             Forall (fun i => i <= N.of_nat s) (entries_read (trace_of run)) /\
             (forall rr, result_of run = Ret rr ->
                         registered rr <= N.of_nat s)).
  { intros fuel target st. simpl.
    apply (set_properties_loop_safe entries s Hs target fuel 0 st). lia. }
  assert (Hrelease : forall fuel rr st,
             registered rr <= N.of_nat s ->
             let run :=
               jerryx_release_property_entry fuel (Some entries) rr st in
             result_of run <> Fault /\
             Forall (fun i => i <= N.of_nat s) (entries_read (trace_of run))).
  { intros fuel rr st Hreg. simpl.
    apply (release_loop_safe entries s Hs fuel (registered rr) st Hreg). }
  split; [exact Hset|]. split; [|exact Hrelease].
  intros fuel0 target st0 rr Hrr fuel st.
  apply Hrelease. exact (proj2 (proj2 (Hset fuel0 target st0)) rr Hrr).
Qed.

(** ** The test that ends the batch *)


(** * The scenario of the specification, run

    The table [a, b, c] on the scripted runtime: a second set that is
    refused, sets that all succeed, and sets answered by the boolean
    false. *)


Lemma set_properties_registers_all_witness :
  result_of
    (jerryx_set_properties (RT := Toy.runtime) 10 Toy.target (Some Toy.abc)
       (Toy.start []))
  = Ret {| outcome := Toy.TOY_UNDEFINED; registered := 3 |} /\
  entry_values_freed
    (trace_of
       (jerryx_set_properties (RT := Toy.runtime) 10 Toy.target (Some Toy.abc)
          (Toy.start [])))
  = [(0, 501); (1, 502); (2, 503)].
Proof.
  destruct (set_properties_registers_all (RT := Toy.runtime)
              Toy.target Toy.abc 3 10 (Toy.start []) eq_refl eq_refl)
    as (Hres & _ & Hfreed & _).
  - lia.
  - vm_compute. repeat constructor.
  - split; [exact Hres | exact Hfreed].
Defined.

Lemma release_property_entry_releases_unregistered_witness :
  runtime_calls
    (trace_of
       (jerryx_release_property_entry (RT := Toy.runtime) 10 (Some Toy.abc)
          {| outcome := Toy.TOY_ERROR; registered := 1 |} (Toy.start [])))
  = [EvValueFree (EntryValue 1) 502; EvValueFree (EntryValue 2) 503].
Proof.
  destruct (release_property_entry_releases_unregistered (RT := Toy.runtime)
              Toy.target Toy.abc 3 10 (Toy.start [Toy.TOY_TRUE; Toy.TOY_ERROR])
              {| outcome := Toy.TOY_ERROR; registered := 1 |}
              10 (Toy.start []) eq_refl eq_refl eq_refl)
    as (_ & _ & Hcalls & _).
  - lia.
  - exact Hcalls.
Defined.

(** The claim C4 fails on the scenario: the handle of the refused set,
    [TOY_ERROR], is returned as the outcome and is released by no call of
    the run. *)
Lemma refused_result_released_counterexample :
  nth_error
    (set_results
       (trace_of
          (jerryx_set_properties (RT := Toy.runtime) 10 Toy.target
             (Some Toy.abc) (Toy.start [Toy.TOY_TRUE; Toy.TOY_ERROR]))))
    1 = Some Toy.TOY_ERROR /\
  jerry_value_is_boolean (RT := Toy.runtime) Toy.TOY_ERROR = false /\
  result_of
    (jerryx_set_properties (RT := Toy.runtime) 10 Toy.target (Some Toy.abc)
       (Toy.start [Toy.TOY_TRUE; Toy.TOY_ERROR]))
  = Ret {| outcome := Toy.TOY_ERROR; registered := 1 |} /\
  ~ In Toy.TOY_ERROR
      (all_freed
         (trace_of
            (jerryx_set_properties (RT := Toy.runtime) 10 Toy.target
               (Some Toy.abc) (Toy.start [Toy.TOY_TRUE; Toy.TOY_ERROR])))) /\
  ~ In Toy.TOY_ERROR
      (Toy.released
         (state_of
            (jerryx_set_properties (RT := Toy.runtime) 10 Toy.target
               (Some Toy.abc) (Toy.start [Toy.TOY_TRUE; Toy.TOY_ERROR])))).
Proof.
  repeat split; try reflexivity.
  - vm_compute. intros H. repeat (destruct H as [H|H]; [discriminate|]).
    exact H.
  - vm_compute. intros H. repeat (destruct H as [H|H]; [discriminate|]).
    exact H.
Qed.

Lemma refused_result_returned_not_released_witness :
  results_freed
    (trace_of
       (jerryx_set_properties (RT := Toy.runtime) 10 Toy.target (Some Toy.abc)
          (Toy.start [Toy.TOY_TRUE; Toy.TOY_ERROR])))
  = [Toy.TOY_TRUE].
Proof.
  destruct (refused_result_returned_not_released (RT := Toy.runtime)
              Toy.target Toy.abc 3 10 (Toy.start [Toy.TOY_TRUE; Toy.TOY_ERROR])
              1 Toy.TOY_ERROR eq_refl eq_refl eq_refl eq_refl)
    as (_ & Hfreed & _).
  exact Hfreed.
Defined.

Lemma reads_stay_within_terminator_witness :
  Forall (fun i => i <= 3)
    (entries_read
       (trace_of
          (jerryx_set_properties (RT := Toy.runtime) 10 Toy.target
             (Some Toy.abc) (Toy.start [])))) /\
  Forall (fun i => i <= 3)
    (entries_read
       (trace_of
          (jerryx_release_property_entry (RT := Toy.runtime) 10 (Some Toy.abc)
             {| outcome := Toy.TOY_ERROR; registered := 1 |} (Toy.start [])))).
Proof.
  destruct (reads_stay_within_terminator (RT := Toy.runtime) Toy.abc 3 eq_refl)
    as (Hset & Hpaired & _).
  split.
  - exact (proj1 (proj2 (Hset 10%nat Toy.target (Toy.start [])))).
  - exact (proj2 (Hpaired 10%nat Toy.target
                    (Toy.start [Toy.TOY_TRUE; Toy.TOY_ERROR])
                    {| outcome := Toy.TOY_ERROR; registered := 1 |} eq_refl
                    10%nat (Toy.start []))).
Defined.


(** * Further properties *)

(** ** What every returning run of the registration has done *)

Lemma indexed_values_app i a b :
  indexed_values i (a ++ b)
  = indexed_values i a ++ indexed_values (i + List.length a) b.
Proof.
  revert i; induction a as [|e a IH]; intros i; simpl.
  - rewrite Nat.add_0_r. reflexivity.
  - rewrite IH. replace (S i + List.length a)%nat
      with (i + S (List.length a))%nat by lia. reflexivity.
Qed.

Lemma firstn_plus {A} (a b : nat) (l : list A) :
  firstn (a + b) l = firstn a l ++ firstn b (skipn a l).
Proof.
  revert l; induction a as [|a IH]; intros l; simpl; [reflexivity|].
  destruct l as [|x l]; simpl.
  - rewrite firstn_nil. reflexivity.
  - rewrite IH. reflexivity.
Qed.

Lemma slice_app i j l (entries : list jerryx_property_entry) :
  (i <= j)%nat -> (j <= l)%nat ->
  slice i j entries ++ slice j l entries = slice i l entries.
Proof.
  intros Hij Hjl. unfold slice.
  replace (l - i)%nat with ((j - i) + (l - j))%nat by lia.
  rewrite firstn_plus, skipn_skipn.
  replace (j - i + i)%nat with j by lia. reflexivity.
Qed.

Section ReturningRuns.

Context {RT : JerryRuntime}.

Variable target : jerry_value_t.
Variable entries : list jerryx_property_entry.

(** A run from index [i] that returns the count [k] has read the entries
    [i .. k], released the values of the entries [i .. k-1] and the answers
    of as many sets, and stopped at entry [k]: a terminator, with the
    undefined handle for outcome, or a named entry whose set was answered by
    the outcome, not a boolean. *)
Lemma loop_run_ret i res tr :
  loop_run target entries i res tr ->
  forall rr,
    res = Ret rr ->
    let k := N.to_nat (registered rr) in
    (i <= k)%nat /\
    entries_read tr = map N.of_nat (seq i (S (k - i))) /\
    entry_values_freed tr = indexed_values i (slice i k entries) /\
    List.length (results_freed tr) = (k - i)%nat /\
    ((outcome rr = jerry_undefined /\
      List.length (set_results tr) = (k - i)%nat /\
      exists e, nth_error entries k = Some e /\ name e = None)
     \/
     (jerry_value_is_boolean (outcome rr) = false /\
      List.length (set_results tr) = S (k - i) /\
      exists e nm, nth_error entries k = Some e /\ name e = Some nm)).
Proof.
  induction 1 as [i | i e He Hn | i e s h r0 He Hn Hb
                 | i e s h r0 res tr He Hn Hb Hrun IH]; intros rr Hres k.
  - discriminate.
  - injection Hres as <-. subst k. simpl registered. rewrite Nat2N.id.
    rewrite Nat.sub_diag, slice_nil. repeat split; try lia.
    left. repeat split. exists e. auto.
  - injection Hres as <-. subst k. simpl registered. rewrite Nat2N.id.
    rewrite Nat.sub_diag, slice_nil. repeat split; try lia.
    right. repeat split; [assumption|]. exists e, s. auto.
  - destruct (IH rr Hres) as (Hle & Hrd & Hfr & Hrf & Hend). fold k in Hle, Hrd, Hfr, Hrf, Hend.
    unfold accepted_events. autorewrite with trace.
    rewrite (slice_cons i k entries e He) by lia.
    replace (k - i)%nat with (S (k - S i)) by lia.
    split; [lia|]. split; [rewrite Hrd; reflexivity|].
    split; [rewrite Hfr; reflexivity|].
    split; [simpl; rewrite Hrf; reflexivity|].
    destruct Hend as [(Ho & Hlen & Hterm)|(Ho & Hlen & Hnamed)].
    + left. split; [assumption|]. split; [simpl; rewrite Hlen; reflexivity|].
      assumption.
    + right. split; [assumption|]. split; [simpl; rewrite Hlen; reflexivity|].
      assumption.
Qed.

End ReturningRuns.

Lemma set_calls_app (a b : list event) :
  set_calls (a ++ b) = set_calls a ++ set_calls b.
Proof.
  induction a as [|ev a IH]; simpl; [reflexivity|].
  destruct ev; simpl; rewrite IH; reflexivity.
Qed.

Section ReturnedAnswers.

Context {RT : JerryRuntime}.

Variable target : jerry_value_t.
Variable entries : list jerryx_property_entry.

(** The sets of a run from index [i] that returns the count [k] are those
    of the entries from [i] on, in order.  The first [k - i] were answered by
    booleans, and their answers are the answers released.  Either there is no
    other set and the outcome is the undefined handle, or there is one more,
    for entry [k]: its answer is the outcome and the events of that refused
    iteration end the trace. *)
Lemma loop_run_answers i res tr :
  loop_run target entries i res tr ->
  forall rr,
    res = Ret rr ->
    let k := N.to_nat (registered rr) in
    results_freed tr = firstn (k - i) (set_results tr) /\
    Forall (fun r => jerry_value_is_boolean r = true)
      (firstn (k - i) (set_results tr)) /\
    set_calls tr
    = map (fun e => (target, value e))
        (slice i (i + List.length (set_results tr)) entries) /\
    ((outcome rr = jerry_undefined /\
      List.length (set_results tr) = (k - i)%nat)
     \/
     (set_results tr = firstn (k - i) (set_results tr) ++ [outcome rr] /\
      exists pre e nm h,
        nth_error entries k = Some e /\ name e = Some nm /\
        tr = pre ++ refused_events (N.of_nat k) nm target h (value e)
                      (outcome rr))).
Proof.
  induction 1 as [i | i e He Hn | i e s h r0 He Hn Hb
                 | i e s h r0 res tr He Hn Hb Hrun IH]; intros rr Hres k.
  - discriminate.
  - injection Hres as <-. subst k. simpl registered. rewrite Nat2N.id.
    rewrite Nat.sub_diag. simpl. rewrite Nat.add_0_r, slice_nil.
    repeat split; [constructor|]. left. split; reflexivity.
  - injection Hres as <-. subst k. simpl registered. rewrite Nat2N.id.
    rewrite Nat.sub_diag. simpl.
    rewrite (slice_cons i (i + 1) entries e He) by lia.
    replace (i + 1)%nat with (S i) by lia. rewrite slice_nil.
    repeat split; [constructor|]. right. split; [reflexivity|].
    exists [], e, s, h. auto.
  - destruct (loop_run_returns target entries _ _ _ Hrun rr Hres) as (Hle & _).
    destruct (IH rr Hres) as (Hrf & Hall & Hcalls & Hend).
    fold k in Hrf, Hall, Hcalls, Hend.
    assert (Hk : (S i <= k)%nat) by (subst k; lia).
    unfold accepted_events.
    rewrite results_freed_app, set_results_app, set_calls_app. simpl.
    replace (k - i)%nat with (S (k - S i)) by lia. simpl firstn.
    rewrite (slice_cons i (i + S (List.length (set_results tr))) entries e He)
      by lia.
    replace (i + S (List.length (set_results tr)))%nat
      with (S i + List.length (set_results tr))%nat by lia.
    split; [rewrite Hrf; reflexivity|].
    split; [constructor; assumption|].
    split; [simpl; rewrite Hcalls; reflexivity|].
    destruct Hend as [(Ho & Hlen)|(Heq & pre & e' & nm' & h' & He' & Hn' & ->)].
    + left. split; [assumption | simpl; rewrite Hlen; reflexivity].
    + right. split.
      * simpl. rewrite <- Heq. reflexivity.
      * exists ([EvEntry (N.of_nat i); EvStringSz s h;
                 EvObjectSet target h (value e) r0; EvValueFree PropName h;
                 EvValueFree (EntryValue (N.of_nat i)) (value e);
                 EvValueFree CallResult r0] ++ pre), e', nm', h'.
        auto.
Qed.

End ReturnedAnswers.

(** On a table terminated at index [s] (an index that fits [uint32_t]) and
    with a budget beyond [s], [jerryx_set_properties] returns, whatever the
    runtime answers.  With [k] the count returned: the entries [0 .. k] were
    read; the sets made are those of the first entries of the table, one
    each, in order, on the target; the first [k] of them were answered by
    booleans; the values released are those of the entries [0 .. k-1] and
    the answers released are those [k] booleans.  Either [k = s], the outcome
    is the undefined handle, [s] sets were made and every one was answered
    by a boolean; or [k < s], one more set was made, for entry [k], its
    answer is not a boolean and is the outcome, and the events of that
    iteration end the trace. *)
Theorem set_properties_returns {RT : JerryRuntime}
    (target : jerry_value_t) (entries : list jerryx_property_entry)
    (s fuel : nat) (st : rt_state) :
  first_sentinel entries = Some s ->
  N.of_nat s < UINT32_MODULUS ->
  (s < fuel)%nat ->
  let run := jerryx_set_properties fuel target (Some entries) st in
  exists rr,
    result_of run = Ret rr /\
    let k := N.to_nat (registered rr) in
    entries_read (trace_of run) = map N.of_nat (seq 0 (S k)) /\
    entry_values_freed (trace_of run) = indexed_values 0 (firstn k entries) /\
    results_freed (trace_of run) = firstn k (set_results (trace_of run)) /\
    Forall (fun r => jerry_value_is_boolean r = true)
      (firstn k (set_results (trace_of run))) /\
    set_calls (trace_of run)
    = map (fun e => (target, value e))
        (firstn (List.length (set_results (trace_of run))) entries) /\
    ((k = s /\ outcome rr = jerry_undefined /\
      List.length (set_results (trace_of run)) = s /\
      Forall (fun r => jerry_value_is_boolean r = true)
        (set_results (trace_of run)))
     \/
     ((k < s)%nat /\ jerry_value_is_boolean (outcome rr) = false /\
      List.length (set_results (trace_of run)) = S k /\
      nth_error (set_results (trace_of run)) k = Some (outcome rr) /\
      exists pre e nm h,
        nth_error entries k = Some e /\ name e = Some nm /\
        trace_of run
        = pre ++ refused_events (N.of_nat k) nm target h (value e)
                   (outcome rr))).
Proof.
  intros Hs Hbound Hfuel run. subst run. unfold jerryx_set_properties.
  pose proof (set_properties_loop_run target entries s Hs Hbound fuel 0 st
                (Nat.le_0_l s)) as Hrun.
  pose proof (loop_run_fuel target entries s Hs Hbound fuel 0 st
                (Nat.le_0_l s)) as Hfin.
  destruct (set_properties_loop_safe entries s Hs target fuel 0 st)
    as (Hsafe & _ & Hreg); [lia|].
  cbv zeta in Hrun. change (N.of_nat 0) with 0 in Hrun, Hfin.
  destruct (result_of (set_properties_loop fuel target entries 0 st))
    as [rr| |] eqn:Hres;
    [| contradiction | exfalso; apply Hfin; [lia | reflexivity]].
  exists rr. split; [reflexivity|]. cbv zeta.
  specialize (Hreg rr eq_refl).
  destruct (loop_run_ret target entries 0 _ _ Hrun rr eq_refl)
    as (_ & Hrd & Hfr & _ & Hend).
  destruct (loop_run_answers target entries 0 _ _ Hrun rr eq_refl)
    as (Hrf & Hall & Hcalls & Hans).
  set (k := N.to_nat (registered rr)) in *.
  set (tr := trace_of (set_properties_loop fuel target entries 0 st)) in *.
  rewrite Nat.sub_0_r in Hrd, Hend, Hrf, Hall, Hans.
  rewrite slice_from_0 in Hfr. simpl Nat.add in Hcalls.
  rewrite slice_from_0 in Hcalls.
  assert (Hk : (k <= s)%nat) by (subst k; lia).
  split; [assumption|]. split; [assumption|]. split; [assumption|].
  split; [assumption|]. split; [assumption|].
  destruct Hend as [(Ho & Hlen & e & He & Hn)|(Ho & Hlen & e & nm & He & Hn)].
  - left.
    destruct (first_sentinel_lookup _ _ _ Hs Hk) as (e' & He' & Hlast & _).
    assert (Heq : k = s) by (apply Hlast; congruence).
    split; [assumption|]. split; [assumption|]. split; [congruence|].
    rewrite <- Hlen, firstn_all in Hall. exact Hall.
  - right. pose proof (named_before_terminator _ _ _ _ _ Hs Hk He Hn) as Hlt.
    destruct Hans as [(_ & Hlen')|(Heq & Hsuf)]; [lia|].
    split; [assumption|]. split; [assumption|]. split; [assumption|].
    split; [|exact Hsuf].
    assert (Hpre : List.length (firstn k (set_results tr)) = k)
      by (rewrite length_firstn; lia).
    rewrite Heq, nth_error_app2 by lia.
    rewrite Hpre, Nat.sub_diag. reflexivity.
Qed.

(** On a terminated table, the registration followed by the cleanup called
    with its result releases the value of every entry before the terminator
    once: the registration those of the entries below the count it returns,
    the cleanup the others.  This holds whatever the runtime answers and in
    whatever state the cleanup is called. *)
Theorem registration_then_cleanup_releases_all {RT : JerryRuntime}
    (target : jerry_value_t) (entries : list jerryx_property_entry)
    (s fuel : nat) (st st' : rt_state) :
  first_sentinel entries = Some s ->
  N.of_nat s < UINT32_MODULUS ->
  (s < fuel)%nat ->
  let registration := jerryx_set_properties fuel target (Some entries) st in
  exists rr,
    result_of registration = Ret rr /\
    let cleanup := jerryx_release_property_entry fuel (Some entries) rr st' in
    result_of cleanup = Ret tt /\
    entry_values_freed (trace_of registration ++ trace_of cleanup)
    = indexed_values 0 (firstn s entries) /\
    NoDup (map fst
             (entry_values_freed (trace_of registration ++ trace_of cleanup))) /\
    List.length
      (entry_values_freed (trace_of registration ++ trace_of cleanup)) = s.
Proof.
  intros Hs Hbound Hfuel registration. subst registration.
  unfold jerryx_set_properties, jerryx_release_property_entry.
  pose proof (set_properties_loop_run target entries s Hs Hbound fuel 0 st
                (Nat.le_0_l s)) as Hrun.
  pose proof (loop_run_fuel target entries s Hs Hbound fuel 0 st
                (Nat.le_0_l s)) as Hfin.
  destruct (set_properties_loop_safe entries s Hs target fuel 0 st)
    as (Hsafe & _ & Hreg); [lia|].
  cbv zeta in Hrun. change (N.of_nat 0) with 0 in Hrun, Hfin.
  destruct (result_of (set_properties_loop fuel target entries 0 st))
    as [rr| |] eqn:Hres;
    [| contradiction | exfalso; apply Hfin; [lia | reflexivity]].
  exists rr. split; [reflexivity|]. cbv zeta.
  specialize (Hreg rr eq_refl).
  destruct (loop_run_ret target entries 0 _ _ Hrun rr eq_refl)
    as (_ & _ & Hfr & _).
  set (k := N.to_nat (registered rr)) in *.
  assert (Hk : (k <= s)%nat) by (subst k; lia).
  replace (registered rr) with (N.of_nat k) by (subst k; lia).
  destruct (release_loop_run entries s Hs fuel Hbound k st' Hk)
    as (Hret & _ & Hfr' & _); [lia|].
  pose proof (first_sentinel_in_table _ _ Hs) as Hlt.
  assert (Hall : entry_values_freed
                   (trace_of (set_properties_loop fuel target entries 0 st) ++
                    trace_of (release_property_entry_loop fuel entries
                                (N.of_nat k) st'))
                 = indexed_values 0 (firstn s entries)).
  { rewrite entry_values_freed_app, Hfr, Hfr'.
    rewrite <- slice_from_0, <- (slice_app 0 k s entries) by lia.
    rewrite indexed_values_app, slice_length_eq by lia.
    rewrite Nat.sub_0_r. reflexivity. }
  split; [assumption|]. split; [exact Hall|]. rewrite Hall. split.
  - apply indexed_values_NoDup.
  - rewrite indexed_values_length, length_firstn. lia.
Qed.

(** ** Entries after the terminator *)

Section AfterTerminator.

Context {RT : JerryRuntime}.

Variables entries entries' : list jerryx_property_entry.
Variable s : nat.
Hypothesis terminated : first_sentinel entries = Some s.
Hypothesis agree :
  forall i, (i <= s)%nat -> nth_error entries' i = nth_error entries i.

Lemma set_properties_loop_agree target fuel :
  forall idx st,
    idx <= N.of_nat s ->
    set_properties_loop fuel target entries' idx st
    = set_properties_loop fuel target entries idx st.
Proof.
  induction fuel as [|fuel IH]; intros idx st Hidx; [reflexivity|].
  destruct (lookup_before_terminator entries s terminated idx Hidx)
    as (e & He & Hnext).
  assert (He' : nth_error entries' (N.to_nat idx) = Some e).
  { rewrite agree by lia. exact He. }
  destruct (name e) as [nm|] eqn:Hn.
  - rewrite (set_properties_loop_named target entries fuel idx e nm st He Hn).
    rewrite (set_properties_loop_named target entries' fuel idx e nm st He' Hn).
    cbv zeta. destruct (jerry_value_is_boolean _); [|reflexivity].
    rewrite IH by (apply Hnext; discriminate). reflexivity.
  - rewrite (set_properties_loop_terminator target entries fuel idx e st He Hn).
    rewrite (set_properties_loop_terminator target entries' fuel idx e st He' Hn).
    reflexivity.
Qed.

Lemma release_loop_agree fuel :
  forall idx st,
    idx <= N.of_nat s ->
    release_property_entry_loop fuel entries' idx st
    = release_property_entry_loop fuel entries idx st.
Proof.
  induction fuel as [|fuel IH]; intros idx st Hidx; [reflexivity|].
  destruct (lookup_before_terminator entries s terminated idx Hidx)
    as (e & He & Hnext).
  assert (He' : nth_error entries' (N.to_nat idx) = Some e).
  { rewrite agree by lia. exact He. }
  destruct (name e) as [nm|] eqn:Hn.
  - rewrite (release_loop_named entries fuel idx e nm st He Hn).
    rewrite (release_loop_named entries' fuel idx e nm st He' Hn).
    cbv zeta. rewrite IH by (apply Hnext; discriminate). reflexivity.
  - rewrite (release_loop_terminator entries fuel idx e st He Hn).
    rewrite (release_loop_terminator entries' fuel idx e st He' Hn).
    reflexivity.
Qed.

End AfterTerminator.

(** What follows the first terminator of a table has no effect: two tables
    that agree up to and including the first terminator of one of them give
    the same run of [jerryx_set_properties] (result, runtime state, calls
    and reads), and the same run of [jerryx_release_property_entry] for every
    count that is not beyond the terminator.  This holds for every budget
    and needs no bound on the table. *)
Theorem entries_after_terminator_ignored {RT : JerryRuntime}
    (entries entries' : list jerryx_property_entry) (s : nat) :
  first_sentinel entries = Some s ->
  firstn (S s) entries' = firstn (S s) entries ->
  (forall fuel target st,
     jerryx_set_properties fuel target (Some entries') st
     = jerryx_set_properties fuel target (Some entries) st) /\
  (forall fuel rr st,
     registered rr <= N.of_nat s ->
     jerryx_release_property_entry fuel (Some entries') rr st
     = jerryx_release_property_entry fuel (Some entries) rr st).
Proof.
  intros Hs Hprefix.
  assert (Hagree : forall i, (i <= s)%nat ->
                             nth_error entries' i = nth_error entries i).
  { intros i Hi.
    assert (Hlt : Nat.ltb i (S s) = true) by (apply Nat.ltb_lt; lia).
    pose proof (nth_error_firstn (S s) entries' i) as H1.
    pose proof (nth_error_firstn (S s) entries i) as H2.
    rewrite Hlt in H1, H2. rewrite <- H1, <- H2, Hprefix. reflexivity. }
  split.
  - intros fuel target st. simpl.
    apply (set_properties_loop_agree entries entries' s Hs Hagree). lia.
  - intros fuel rr st Hreg. simpl.
    apply (release_loop_agree entries entries' s Hs Hagree). exact Hreg.
Qed.

(** ** Tables without a terminator *)

Lemma first_sentinel_none entries :
  first_sentinel entries = None ->
  forall i e, nth_error entries i = Some e -> exists nm, name e = Some nm.
Proof.
  induction entries as [|e0 es IH]; intros H i e He.
  - destruct i; discriminate.
  - simpl in H. destruct (name e0) as [nm0|] eqn:Hn0; [|discriminate].
    destruct (first_sentinel es); [discriminate|].
    destruct i as [|i]; simpl in He.
    + injection He as <-. exists nm0. exact Hn0.
    + apply (IH eq_refl i e He).
Qed.

Section Unterminated.

Context {RT : JerryRuntime}.

Variable entries : list jerryx_property_entry.
Hypothesis unterminated : first_sentinel entries = None.
Hypothesis fits : N.of_nat (List.length entries) < UINT32_MODULUS.

Lemma release_loop_fault fuel idx st :
  nth_error entries (N.to_nat idx) = None ->
  release_property_entry_loop (S fuel) entries idx st
  = (Fault, st, [EvEntry idx]).
Proof.
  intros He. simpl. unfold bind, entry_at. rewrite He. reflexivity.
Qed.

Lemma release_loop_unterminated fuel :
  forall i st,
    (i <= List.length entries)%nat ->
    (List.length entries - i < fuel)%nat ->
    let run := release_property_entry_loop fuel entries (N.of_nat i) st in
    result_of run = Fault /\
    entries_read (trace_of run)
    = map N.of_nat (seq i (S (List.length entries - i))) /\
    entry_values_freed (trace_of run) = indexed_values i (skipn i entries).
Proof.
  induction fuel as [|fuel IH]; intros i st Hi Hf run; [lia|]. subst run.
  destruct (nth_error entries i) as [e|] eqn:He.
  - assert (Hlt : (i < List.length entries)%nat)
      by (apply nth_error_Some; congruence).
    destruct (first_sentinel_none entries unterminated i e He) as (nm & Hn).
    rewrite (release_loop_named entries fuel (N.of_nat i) e nm st)
      by (rewrite ?Nat2N.id; assumption).
    cbv zeta. rewrite uint32_incr_small by lia. autorewrite with trace.
    destruct (IH (S i) (rt_value_free (value e) st)) as (Hr & Hrd & Hfr);
      [lia | lia |].
    rewrite (skipn_nth_error entries i e He).
    replace (List.length entries - i)%nat
      with (S (List.length entries - S i)) by lia.
    repeat split.
    + assumption.
    + rewrite Hrd. reflexivity.
    + rewrite Hfr. reflexivity.
  - assert (i = List.length entries) as ->.
    { apply nth_error_None in He. lia. }
    rewrite (release_loop_fault fuel (N.of_nat (List.length entries)) st)
      by (rewrite ?Nat2N.id; assumption).
    rewrite Nat.sub_diag, skipn_all. repeat split; reflexivity.
Qed.

Lemma set_properties_loop_unterminated target fuel :
  forall i st,
    (i <= List.length entries)%nat ->
    (List.length entries - i < fuel)%nat ->
    let run := set_properties_loop fuel target entries (N.of_nat i) st in
    result_of run <> OutOfFuel /\
    (forall rr,
       result_of run = Ret rr ->
       jerry_value_is_boolean (outcome rr) = false /\
       registered rr < N.of_nat (List.length entries)) /\
    (Forall (fun r => jerry_value_is_boolean r = true)
       (set_results (trace_of run)) ->
     result_of run = Fault /\
     entries_read (trace_of run)
     = map N.of_nat (seq i (S (List.length entries - i))) /\
     entry_values_freed (trace_of run) = indexed_values i (skipn i entries)).
Proof.
  induction fuel as [|fuel IH]; intros i st Hi Hf run; [lia|]. subst run.
  destruct (nth_error entries i) as [e|] eqn:He.
  - assert (Hlt : (i < List.length entries)%nat)
      by (apply nth_error_Some; congruence).
    destruct (first_sentinel_none entries unterminated i e He) as (nm & Hn).
    rewrite (set_properties_loop_named target entries fuel (N.of_nat i) e nm st)
      by (rewrite ?Nat2N.id; assumption).
    cbv zeta. destruct (jerry_value_is_boolean _) eqn:Hb.
    + rewrite uint32_incr_small by lia. unfold accepted_events.
      autorewrite with trace.
      match goal with
      | |- context [set_properties_loop fuel target entries _ ?st'] =>
          destruct (IH (S i) st') as (Hfu & Hret & Hall); [lia | lia |]
      end.
      split; [assumption|]. split; [assumption|].
      simpl set_results. intros Hbool. inversion Hbool as [|? ? _ Hbool']; subst.
      destruct (Hall Hbool') as (Hr & Hrd & Hfr).
      rewrite (skipn_nth_error entries i e He).
      replace (List.length entries - i)%nat
        with (S (List.length entries - S i)) by lia.
      repeat split.
      * assumption.
      * rewrite Hrd. reflexivity.
      * rewrite Hfr. reflexivity.
    + autorewrite with trace. split; [discriminate|]. split.
      * intros rr [= <-]. simpl. split; [assumption | lia].
      * simpl. intros Hbool. inversion Hbool; congruence.
  - assert (i = List.length entries) as ->.
    { apply nth_error_None in He. lia. }
    rewrite (set_properties_loop_fault target entries fuel
               (N.of_nat (List.length entries)) st)
      by (rewrite ?Nat2N.id; assumption).
    autorewrite with trace. rewrite Nat.sub_diag, skipn_all.
    split; [discriminate|]. split; [discriminate|].
    intros _. repeat split; reflexivity.
Qed.

End Unterminated.

(** On a table without a terminator (fewer than 2^32 entries)
    [jerryx_set_properties] never reports success: a run that returns
    returns the answer of a refused set, not a boolean, with a count below
    the length of the table; and when every set is answered by a boolean
    the loop releases the value of every entry and then reads
    [entries[length]], outside the table. *)
Theorem set_properties_unterminated_table {RT : JerryRuntime}
    (target : jerry_value_t) (entries : list jerryx_property_entry)
    (fuel : nat) (st : rt_state) :
  first_sentinel entries = None ->
  N.of_nat (List.length entries) < UINT32_MODULUS ->
  (List.length entries < fuel)%nat ->
  let run := jerryx_set_properties fuel target (Some entries) st in
  result_of run <> OutOfFuel /\
  (forall rr,
     result_of run = Ret rr ->
     jerry_value_is_boolean (outcome rr) = false /\
     registered rr < N.of_nat (List.length entries)) /\
  (Forall (fun r => jerry_value_is_boolean r = true)
     (set_results (trace_of run)) ->
   result_of run = Fault /\
   entries_read (trace_of run)
   = map N.of_nat (seq 0 (S (List.length entries))) /\
   entry_values_freed (trace_of run) = indexed_values 0 entries).
Proof.
  intros Hnone Hfits Hfuel run. subst run. unfold jerryx_set_properties.
  pose proof (set_properties_loop_unterminated entries Hnone Hfits target fuel
                0 st (Nat.le_0_l _)) as H.
  cbv zeta in H. change (N.of_nat 0) with 0 in H.
  rewrite Nat.sub_0_r in H. simpl skipn in H. apply H. lia.
Qed.

(** On a table without a terminator (fewer than 2^32 entries)
    [jerryx_release_property_entry], started from a count within the table,
    releases the value of every entry from that count to the end of the
    table and then reads [entries[length]], outside the table. *)
Theorem release_property_entry_unterminated_table {RT : JerryRuntime}
    (entries : list jerryx_property_entry) (rr : jerryx_register_result)
    (fuel : nat) (st : rt_state) :
  first_sentinel entries = None ->
  N.of_nat (List.length entries) < UINT32_MODULUS ->
  registered rr <= N.of_nat (List.length entries) ->
  (List.length entries < fuel)%nat ->
  let run := jerryx_release_property_entry fuel (Some entries) rr st in
  let k := N.to_nat (registered rr) in
  result_of run = Fault /\
  entries_read (trace_of run)
  = map N.of_nat (seq k (S (List.length entries - k))) /\
  entry_values_freed (trace_of run) = indexed_values k (skipn k entries).
Proof.
  intros Hnone Hfits Hreg Hfuel run k. subst run.
  unfold jerryx_release_property_entry.
  replace (registered rr) with (N.of_nat k) by (subst k; lia).
  apply (release_loop_unterminated entries Hnone Hfits fuel k st);
    subst k; lia.
Qed.

(** ** The batch and the single-property accessor *)

Lemma named_entries_terminator e es :
  name e = None -> named_entries (e :: es) = [].
Proof. intros Hn. simpl. rewrite Hn. reflexivity. Qed.

Lemma named_entries_named e es nm :
  name e = Some nm ->
  named_entries (e :: es) = (nm, value e) :: named_entries es.
Proof. intros Hn. simpl. rewrite Hn. reflexivity. Qed.

Section BatchAndAccessor.

Context {RT : JerryRuntime}.

Variable target : jerry_value_t.
Variable entries : list jerryx_property_entry.
Variable s : nat.
Hypothesis terminated : first_sentinel entries = Some s.
Hypothesis fits : N.of_nat s < UINT32_MODULUS.

(** One step of [set_each], in the shape of [set_properties_loop_named]. *)
Lemma set_each_cons nm v rest idx st :
  let h := fst (rt_string_sz nm st) in
  let r := fst (rt_object_set target h v (snd (rt_string_sz nm st))) in
  let st1 :=
    rt_value_free h (snd (rt_object_set target h v (snd (rt_string_sz nm st))))
  in
  set_each target ((nm, v) :: rest) idx st =
  if jerry_value_is_boolean r
  then
    let run :=
      set_each target rest (idx + 1)
        (rt_value_free r (rt_value_free v st1)) in
    (result_of run, state_of run,
     runtime_calls (accepted_events idx nm target h v r) ++ trace_of run)
  else
    (Ret (JERRYX_SET_PROPERTIES_RESULT r idx), st1,
     runtime_calls (refused_events idx nm target h v r)).
Proof.
  intros h r st1. subst h r st1. simpl.
  unfold jerryx_set_property_str, bind, jerry_string_sz, jerry_object_set,
    jerry_value_free, ret.
  destruct (rt_string_sz nm st) as [h s1]; simpl.
  destruct (rt_object_set target h v s1) as [r s2]; simpl.
  destruct (jerry_value_is_boolean r); simpl; [|reflexivity].
  destruct (set_each target rest (idx + 1) _) as [[res st'] tr].
  reflexivity.
Qed.

Lemma set_properties_loop_each fuel :
  forall i st,
    (i <= s)%nat ->
    (s - i < fuel)%nat ->
    let batch := set_properties_loop fuel target entries (N.of_nat i) st in
    let each :=
      set_each target (named_entries (skipn i entries)) (N.of_nat i) st in
    result_of batch = result_of each /\
    state_of batch = state_of each /\
    runtime_calls (trace_of batch) = trace_of each.
Proof.
  induction fuel as [|fuel IH]; intros i st Hi Hf batch each; [lia|].
  subst batch each.
  destruct (first_sentinel_lookup entries s i terminated Hi)
    as (e & He & _ & _).
  rewrite (skipn_nth_error entries i e He).
  destruct (name e) as [nm|] eqn:Hn.
  - pose proof (named_before_terminator _ _ _ _ _ terminated Hi He Hn) as Hlt.
    rewrite (named_entries_named e _ nm Hn).
    rewrite (set_properties_loop_named target entries fuel (N.of_nat i) e nm st)
      by (rewrite ?Nat2N.id; assumption).
    rewrite set_each_cons. cbv zeta.
    destruct (jerry_value_is_boolean _) eqn:Hb.
    + rewrite uint32_incr_small by lia.
      replace (N.of_nat i + 1) with (N.of_nat (S i)) by lia.
      autorewrite with trace.
      match goal with
      | |- context [set_properties_loop fuel target entries _ ?st'] =>
          destruct (IH (S i) st') as (Hr & Hst & Htr); [lia | lia |]
      end.
      repeat split; try assumption.
      rewrite Htr. reflexivity.
    + autorewrite with trace. repeat split; reflexivity.
  - rewrite (named_entries_terminator e _ Hn).
    rewrite (set_properties_loop_terminator target entries fuel (N.of_nat i) e
               st) by (rewrite ?Nat2N.id; assumption).
    repeat split; reflexivity.
Qed.

End BatchAndAccessor.

(** On a terminated table, [jerryx_set_properties] does to the runtime what
    a caller does who sets the named entries one by one with
    [jerryx_set_property_str], releases the value and the answer after each
    set answered by a boolean, and stops at the first set answered
    otherwise: the same result, the same final runtime state and the same
    calls into the runtime, in the same order. *)
Theorem set_properties_is_set_each {RT : JerryRuntime}
    (target : jerry_value_t) (entries : list jerryx_property_entry)
    (s fuel : nat) (st : rt_state) :
  first_sentinel entries = Some s ->
  N.of_nat s < UINT32_MODULUS ->
  (s < fuel)%nat ->
  let batch := jerryx_set_properties fuel target (Some entries) st in
  let each := set_each target (named_entries entries) 0 st in
  result_of batch = result_of each /\
  state_of batch = state_of each /\
  runtime_calls (trace_of batch) = trace_of each.
Proof.
  intros Hs Hfits Hfuel batch each. subst batch each.
  unfold jerryx_set_properties.
  apply (set_properties_loop_each target entries s Hs Hfits fuel 0 st); lia.
Qed.

(** ** Registration of a global function *)

(** [jerryx_handler_register_global] makes seven calls, in this order: it
    obtains the realm object [g], the name handle [n] and the function
    handle [f], sets the property once, on [g] with [n] and [f], then
    releases [f], [n] and [g].  It returns the answer [r] of the set, which
    it does not release, and leaves the runtime in the state the three
    releases produce.  Each handle it obtained is released once, whatever
    the set answers. *)
Theorem register_global_releases_what_it_acquires
    {RT : JerryRuntime} {RR : JerryRealmRuntime RT}
    (name_p : string) (handler_p : jerry_external_handler_t) (st : rt_state) :
  let g := fst (rt_current_realm st) in
  let st1 := snd (rt_current_realm st) in
  let n := fst (rt_string_sz name_p st1) in
  let st2 := snd (rt_string_sz name_p st1) in
  let f := fst (rt_function_external handler_p st2) in
  let st3 := snd (rt_function_external handler_p st2) in
  let r := fst (rt_object_set g n f st3) in
  let st4 := snd (rt_object_set g n f st3) in
  let run := jerryx_handler_register_global name_p handler_p st in
  fst (fst run) = r /\
  snd (fst run) = rt_value_free g (rt_value_free n (rt_value_free f st4)) /\
  snd run
  = [GEvCurrentRealm g; GEvStringSz name_p n;
     GEvFunctionExternal handler_p f; GEvObjectSet g n f r;
     GEvValueFree FunctionVal f; GEvValueFree FunctionNameVal n;
     GEvValueFree GlobalObjVal g] /\
  global_acquired (snd run) = [g; n; f] /\
  global_released (snd run) = [f; n; g] /\
  Permutation (global_acquired (snd run)) (global_released (snd run)).
Proof.
  intros g st1 n st2 f st3 r st4 run. subst g st1 n st2 f st3 r st4 run.
  unfold jerryx_handler_register_global, gbind, gret, global_current_realm,
    global_string_sz, global_function_external, global_object_set,
    global_value_free.
  destruct (rt_current_realm st) as [g st1]; simpl.
  destruct (rt_string_sz name_p st1) as [n st2]; simpl.
  destruct (rt_function_external handler_p st2) as [f st3]; simpl.
  destruct (rt_object_set g n f st3) as [r st4]; simpl.
  repeat split.
  apply Permutation_rev with (l := [g; n; f]).
Qed.

(** ** The further properties, run on the scripted runtime *)

Lemma set_properties_returns_witness :
  exists rr,
    result_of
      (jerryx_set_properties (RT := Toy.runtime) 10 Toy.target (Some Toy.abc)
         (Toy.start [Toy.TOY_TRUE; Toy.TOY_ERROR])) = Ret rr /\
    entry_values_freed
      (trace_of
         (jerryx_set_properties (RT := Toy.runtime) 10 Toy.target
            (Some Toy.abc) (Toy.start [Toy.TOY_TRUE; Toy.TOY_ERROR])))
    = indexed_values 0 (firstn (N.to_nat (registered rr)) Toy.abc).
Proof.
  destruct (set_properties_returns (RT := Toy.runtime) Toy.target Toy.abc 3 10
              (Toy.start [Toy.TOY_TRUE; Toy.TOY_ERROR]) eq_refl eq_refl)
    as (rr & Hres & _ & Hfreed & _).
  - lia.
  - exists rr. split; [exact Hres | exact Hfreed].
Defined.

Lemma registration_then_cleanup_releases_all_witness :
  exists rr,
    result_of
      (jerryx_set_properties (RT := Toy.runtime) 10 Toy.target (Some Toy.abc)
         (Toy.start [Toy.TOY_TRUE; Toy.TOY_ERROR])) = Ret rr /\
    entry_values_freed
      (trace_of
         (jerryx_set_properties (RT := Toy.runtime) 10 Toy.target
            (Some Toy.abc) (Toy.start [Toy.TOY_TRUE; Toy.TOY_ERROR])) ++
       trace_of
         (jerryx_release_property_entry (RT := Toy.runtime) 10 (Some Toy.abc)
            rr (Toy.start [])))
    = [(0, 501); (1, 502); (2, 503)].
Proof.
  destruct (registration_then_cleanup_releases_all (RT := Toy.runtime)
              Toy.target Toy.abc 3 10
              (Toy.start [Toy.TOY_TRUE; Toy.TOY_ERROR]) (Toy.start [])
              eq_refl eq_refl)
    as (rr & Hres & _ & Hall & _).
  - lia.
  - exists rr. split; [exact Hres | exact Hall].
Defined.

Lemma entries_after_terminator_ignored_witness :
  jerryx_set_properties (RT := Toy.runtime) 10 Toy.target
    (Some (Toy.abc ++ [Toy.entry "z"%string 999])) (Toy.start [])
  = jerryx_set_properties (RT := Toy.runtime) 10 Toy.target (Some Toy.abc)
      (Toy.start []).
Proof.
  exact (proj1 (entries_after_terminator_ignored (RT := Toy.runtime)
                  Toy.abc (Toy.abc ++ [Toy.entry "z"%string 999]) 3
                  eq_refl eq_refl)
           10%nat Toy.target (Toy.start [])).
Defined.

Lemma set_properties_unterminated_table_witness :
  result_of
    (jerryx_set_properties (RT := Toy.runtime) 10 Toy.target
       (Some [Toy.entry "a"%string 501; Toy.entry "b"%string 502])
       (Toy.start []))
  = Fault.
Proof.
  destruct (set_properties_unterminated_table (RT := Toy.runtime) Toy.target
              [Toy.entry "a"%string 501; Toy.entry "b"%string 502] 10
              (Toy.start []) eq_refl eq_refl)
    as (_ & _ & Hall).
  - simpl. lia.
  - destruct Hall as (Hres & _).
    + vm_compute. repeat constructor.
    + exact Hres.
Defined.

Lemma release_property_entry_unterminated_table_witness :
  result_of
    (jerryx_release_property_entry (RT := Toy.runtime) 10
       (Some [Toy.entry "a"%string 501; Toy.entry "b"%string 502])
       {| outcome := Toy.TOY_ERROR; registered := 1 |} (Toy.start []))
  = Fault.
Proof.
  destruct (release_property_entry_unterminated_table (RT := Toy.runtime)
              [Toy.entry "a"%string 501; Toy.entry "b"%string 502]
              {| outcome := Toy.TOY_ERROR; registered := 1 |} 10
              (Toy.start []) eq_refl eq_refl)
    as (Hres & _).
  - simpl. lia.
  - simpl. lia.
  - exact Hres.
Defined.

Lemma set_properties_is_set_each_witness :
  state_of
    (jerryx_set_properties (RT := Toy.runtime) 10 Toy.target (Some Toy.abc)
       (Toy.start [Toy.TOY_TRUE; Toy.TOY_ERROR]))
  = state_of
      (set_each (RT := Toy.runtime) Toy.target
         [("a"%string, 501); ("b"%string, 502); ("c"%string, 503)] 0
         (Toy.start [Toy.TOY_TRUE; Toy.TOY_ERROR])).
Proof.
  destruct (set_properties_is_set_each (RT := Toy.runtime) Toy.target Toy.abc
              3 10 (Toy.start [Toy.TOY_TRUE; Toy.TOY_ERROR]) eq_refl eq_refl)
    as (_ & Hst & _).
  - lia.
  - exact Hst.
Defined.

Lemma register_global_releases_what_it_acquires_witness :
  snd (jerryx_handler_register_global (RR := ToyRealm.realm)
         "print"%string 5 (Toy.start [Toy.TOY_ERROR]))
  = [GEvCurrentRealm 300; GEvStringSz "print" 1000;
     GEvFunctionExternal 5 705; GEvObjectSet 300 1000 705 Toy.TOY_ERROR;
     GEvValueFree FunctionVal 705; GEvValueFree FunctionNameVal 1000;
     GEvValueFree GlobalObjVal 300] /\
  Toy.released
    (snd (fst (jerryx_handler_register_global (RR := ToyRealm.realm)
                 "print"%string 5 (Toy.start [Toy.TOY_ERROR]))))
  = [705; 1000; 300].
Proof.
  destruct (register_global_releases_what_it_acquires (RR := ToyRealm.realm)
              "print"%string 5 (Toy.start [Toy.TOY_ERROR]))
    as (_ & Hst & Htr & _).
  split; [exact Htr|]. rewrite Hst. reflexivity.
Defined.
